(** * Type-inference evaluation framework: matcher, metrics, evaluator, visitor

    A shallow embedding of
      - [lib/metrics/EvaluationMetrics.ts]   (matcher and metrics engine),
      - [lib/TypeInferenceEvaluator.ts]      (approach life cycle, comparison),
      - [lib/approaches/RandomTypeInferenceApproach.ts] (baseline approach and
        its scope-tracking visitor),
    together with the properties the specification states about them.

    Conventions of the embedding.
      - A JS [number] that the code only ever compares, adds or divides is an
        exact rational ([Qc]); the rounding of IEEE-754 arithmetic is not
        modelled.  Source positions and lengths are integral ([Z], [nat]).
      - A JS [Map] is an insertion-ordered association list with unique keys
        ([JsMap]): [set] on a present key overwrites in place, on an absent
        key appends.
      - An [async] method that may reject is a function from the state to a
        result ([Ok v] or [Err e]) and a new state; [await] is sequencing. *)

From Stdlib Require Import String List ZArith QArith Qcanon Qround Bool Arith Lia.
From Stdlib Require Import Sorted Permutation.
Import ListNotations.
Open Scope string_scope.
Open Scope list_scope.

(** ** JavaScript values used by the code *)

(** [a || b] on strings: the empty string is falsy. *)
Definition str_or (a b : string) : string :=
  match a with EmptyString => b | _ => a end.

(** [a || b] on an optional number: [undefined] and [0] are falsy. *)
Definition num_or (a : option Qc) (b : Qc) : Qc :=
  match a with
  | Some x => if Qc_eq_dec x 0%Qc then b else x
  | None => b
  end.

(** [a || b] on an optional count. *)
Definition count_or (a : option nat) (b : nat) : nat :=
  match a with
  | Some (S n) => S n
  | _ => b
  end.

(** [a < b] on numbers. *)
Definition Qc_ltb (a b : Qc) : bool :=
  match (a ?= b)%Qc with Lt => true | _ => false end.

(** A length or a count used as a number. *)
Definition num_of_nat (n : nat) : Qc := Q2Qc (inject_Z (Z.of_nat n)).

(** ** [Map<string, V>] *)

Module JsMap.
Section WithValue.
Context {V : Type}.

Definition t := list (string * V).

Definition empty : t := [].

Fixpoint get (k : string) (m : t) : option V :=
  match m with
  | [] => None
  | (k', v) :: m' => if String.eqb k' k then Some v else get k m'
  end.

Definition has (k : string) (m : t) : bool :=
  match get k m with Some _ => true | None => false end.

Fixpoint set (k : string) (v : V) (m : t) : t :=
  match m with
  | [] => [(k, v)]
  | (k', v') :: m' =>
      if String.eqb k' k then (k', v) :: m' else (k', v') :: set k v m'
  end.

Definition keys (m : t) : list string := map fst m.

Definition entries (m : t) : list (string * V) := m.

(** The representation invariant of a [Map]: no key occurs twice. *)
Definition wf (m : t) : Prop := NoDup (keys m).
End WithValue.
Arguments t : clear implicits.
End JsMap.

(** ** Data model *)

Record Position := { line : Z; column : Z }.

Module TypePrediction.
Record Context := {
  scope : string;
  syntacticContext : string;
  semanticHints : list string
}.
Record t := {
  identifier : string;
  predictedType : string;
  position : Position;
  context : Context
}.
End TypePrediction.

Module GroundTruthType.
Record t := {
  identifier : string;
  actualType : string;
  position : Position;
  scope : string
}.
End GroundTruthType.

Module TestCase.
Record t := {
  id : string;
  name : string;
  sourceCode : string;
  groundTruth : list GroundTruthType.t
}.
End TestCase.

(** One element of the array built by [getMatches]. *)
Module Match.
Record t := {
  prediction : TypePrediction.t;
  groundTruth : GroundTruthType.t;
  correct : bool;
  predictedType : string;
  actualType : string
}.
End Match.

Module EvaluationResult.
Record t := {
  approachName : string;
  predictions : list TypePrediction.t;
  accuracy : Qc;
  precisionByType : JsMap.t Qc;
  recallByType : JsMap.t Qc;
  f1ScoreByType : JsMap.t Qc;
  totalPredictions : nat;
  correctPredictions : nat;
  executionTime : Qc
}.
End EvaluationResult.

(** ** EvaluationMetrics *)

Module EvaluationMetrics.

(** The predicate handed to [groundTruth.find] for one prediction. *)
Definition sameIdentity (p : TypePrediction.t) (gt : GroundTruthType.t) : bool :=
  String.eqb (GroundTruthType.identifier gt) (TypePrediction.identifier p)
  && Z.eqb (line (GroundTruthType.position gt)) (line (TypePrediction.position p))
  && Z.eqb (column (GroundTruthType.position gt)) (column (TypePrediction.position p)).

(** The object pushed for a prediction and the ground truth found for it. *)
Definition mkMatch (p : TypePrediction.t) (g : GroundTruthType.t) : Match.t :=
  {| Match.prediction := p;
     Match.groundTruth := g;
     Match.correct :=
       String.eqb (TypePrediction.predictedType p) (GroundTruthType.actualType g);
     Match.predictedType := TypePrediction.predictedType p;
     Match.actualType := GroundTruthType.actualType g |}.

(** Body of the [for (const prediction of predictions)] loop. *)
Definition matchStep (groundTruth : list GroundTruthType.t)
    (matches : list Match.t) (p : TypePrediction.t) : list Match.t :=
  match find (sameIdentity p) groundTruth with
  | Some g => matches ++ [mkMatch p g]
  | None => matches
  end.

Definition getMatches (predictions : list TypePrediction.t)
    (groundTruth : list GroundTruthType.t) : list Match.t :=
  fold_left (matchStep groundTruth) predictions [].

Definition calculateAccuracy (predictions : list TypePrediction.t)
    (groundTruth : list GroundTruthType.t) : Qc :=
  let matches := getMatches predictions groundTruth in
  let correctPredictions := length (filter Match.correct matches) in
  if (0 <? length matches)%nat
  then (num_of_nat correctPredictions / num_of_nat (length matches))%Qc
  else 0%Qc.

(** [groupByPredictedType]: the array stored under a key is extended in
    place, so the key keeps the position of its first insertion. *)
Definition groupByPredictedType (matches : list Match.t)
    : JsMap.t (list Match.t) :=
  fold_left
    (fun groups m =>
       let groups :=
         if JsMap.has (Match.predictedType m) groups then groups
         else JsMap.set (Match.predictedType m) [] groups in
       match JsMap.get (Match.predictedType m) groups with
       | Some group => JsMap.set (Match.predictedType m) (group ++ [m]) groups
       | None => groups
       end)
    matches JsMap.empty.

Definition calculatePrecisionByType (predictions : list TypePrediction.t)
    (groundTruth : list GroundTruthType.t) : JsMap.t Qc :=
  let matches := getMatches predictions groundTruth in
  let typeGroups := groupByPredictedType matches in
  fold_left
    (fun precisionMap '(type, typeMatches) =>
       let correctPredictions := length (filter Match.correct typeMatches) in
       let totalPredictions := length typeMatches in
       JsMap.set type
         (if (0 <? totalPredictions)%nat
          then (num_of_nat correctPredictions / num_of_nat totalPredictions)%Qc
          else 0%Qc)
         precisionMap)
    (JsMap.entries typeGroups) JsMap.empty.

Definition groupByActualType (groundTruth : list GroundTruthType.t)
    (_matches : list Match.t) : JsMap.t nat :=
  fold_left
    (fun groups gt =>
       let count := count_or (JsMap.get (GroundTruthType.actualType gt) groups) 0 in
       JsMap.set (GroundTruthType.actualType gt) (count + 1)%nat groups)
    groundTruth JsMap.empty.

(** The filter predicate of [calculateRecallByType]. *)
Definition correctOfActual (type : string) (m : Match.t) : bool :=
  Match.correct m && String.eqb (Match.actualType m) type.

Definition calculateRecallByType (predictions : list TypePrediction.t)
    (groundTruth : list GroundTruthType.t) : JsMap.t Qc :=
  let matches := getMatches predictions groundTruth in
  let typeGroups := groupByActualType groundTruth matches in
  fold_left
    (fun recallMap '(type, actualTypeInstances) =>
       let correctPredictions := length (filter (correctOfActual type) matches) in
       JsMap.set type
         (if (0 <? actualTypeInstances)%nat
          then (num_of_nat correctPredictions / num_of_nat actualTypeInstances)%Qc
          else 0%Qc)
         recallMap)
    (JsMap.entries typeGroups) JsMap.empty.

(** [new Set([...a, ...b])]: first occurrences, in order. *)
Definition newSet (l : list string) : list string :=
  fold_left
    (fun s x => if existsb (String.eqb x) s then s else s ++ [x]) l [].

Definition f1Of (precision recall : Qc) : Qc :=
  if Qc_eq_dec (precision + recall)%Qc 0%Qc then 0%Qc
  else ((Q2Qc 2 * precision * recall) / (precision + recall))%Qc.

Definition calculateF1ScoreByType (precisionByType recallByType : JsMap.t Qc)
    : JsMap.t Qc :=
  let allTypes :=
    newSet (JsMap.keys precisionByType ++ JsMap.keys recallByType) in
  fold_left
    (fun f1Map type =>
       let precision := num_or (JsMap.get type precisionByType) 0%Qc in
       let recall := num_or (JsMap.get type recallByType) 0%Qc in
       JsMap.set type (f1Of precision recall) f1Map)
    allTypes JsMap.empty.

Definition generateEvaluationResult (approachName : string)
    (predictions : list TypePrediction.t)
    (groundTruth : list GroundTruthType.t) (executionTime : Qc)
    : EvaluationResult.t :=
  let matches := getMatches predictions groundTruth in
  let correctPredictions := length (filter Match.correct matches) in
  let accuracy := calculateAccuracy predictions groundTruth in
  let precisionByType := calculatePrecisionByType predictions groundTruth in
  let recallByType := calculateRecallByType predictions groundTruth in
  let f1ScoreByType := calculateF1ScoreByType precisionByType recallByType in
  {| EvaluationResult.approachName := approachName;
     EvaluationResult.predictions := predictions;
     EvaluationResult.accuracy := accuracy;
     EvaluationResult.precisionByType := precisionByType;
     EvaluationResult.recallByType := recallByType;
     EvaluationResult.f1ScoreByType := f1ScoreByType;
     EvaluationResult.totalPredictions := length matches;
     EvaluationResult.correctPredictions := correctPredictions;
     EvaluationResult.executionTime := executionTime |}.

End EvaluationMetrics.

(** ** Thrown values, results and the evaluator's monad *)

(** A value thrown by [throw new Error(message)] or by a rejected promise. *)
Inductive JsError := ErrorMsg (message : string).

Inductive Res (A : Type) :=
| Ok (a : A)
| Err (e : JsError).
Arguments Ok {A} a.
Arguments Err {A} e.

(** The values a [Record<string, unknown>] holds, as far as
    [RandomTypeInferenceApproach.initialize] tells them apart. *)
Inductive Unknown :=
| UNumber (n : Qc)
| UArray (items : list string)
| UOther (truthy : bool).

Definition Config := JsMap.t Unknown.

Module TypeInferenceEvaluator.
Section WithWorld.

(** Everything the registered approaches can read or change. *)
Variable W : Type.
(** [Date.now()]. *)
Variable now : W -> Z.

(** The [TypeInferenceApproach] interface. *)
Record Approach := {
  name : string;
  initialize : Config -> W -> Res unit * W;
  predict : string -> string -> W -> Res (list TypePrediction.t) * W;
  dispose : W -> Res unit * W
}.

(** Calls the evaluator makes on an approach, in order. *)
Inductive Call :=
| CallInitialize (approach : string)
| CallPredict (approach : string) (testCaseId : string)
| CallDispose (approach : string).

(** Lines the evaluator writes with [console.log] and [console.error]. *)
Inductive ConsoleEvent :=
| LogEvaluating (approachName : string)
| LogProcessing (testCaseName : string)
| LogCompleted (accuracy : Qc)
| ErrorFailed (approachName : string) (error : JsError).

Record State := {
  world : W;
  calls : list Call;
  console : list ConsoleEvent
}.

Definition M (A : Type) := State -> Res A * State.

Definition ret {A} (a : A) : M A := fun s => (Ok a, s).

Definition bind {A B} (c : M A) (k : A -> M B) : M B :=
  fun s =>
    match c s with
    | (Ok a, s') => k a s'
    | (Err e, s') => (Err e, s')
    end.

Definition throw {A} (e : JsError) : M A := fun s => (Err e, s).

(** [try { body } finally { fin }]: [fin] runs on both exits, and an
    exception of [fin] supersedes the pending completion of [body]. *)
Definition try_finally {A} (body : M A) (fin : M unit) : M A :=
  fun s =>
    let (r, s1) := body s in
    match fin s1 with
    | (Ok _, s2) => (r, s2)
    | (Err e2, s2) => (Err e2, s2)
    end.

(** [try { body } catch (error) { handler }]. *)
Definition try_catch {A} (body : M A) (handler : JsError -> M A) : M A :=
  fun s =>
    match body s with
    | (Ok a, s1) => (Ok a, s1)
    | (Err e, s1) => handler e s1
    end.

Local Notation "x <- c1 ;; c2" := (bind c1 (fun x => c2))
  (at level 61, c1 at next level, right associativity).
Local Notation "c1 ;; c2" := (bind c1 (fun _ => c2))
  (at level 61, right associativity).

Definition log (ev : ConsoleEvent) : M unit :=
  fun s => (Ok tt, {| world := world s; calls := calls s;
                      console := console s ++ [ev] |}).

Definition dateNow : M Z := fun s => (Ok (now (world s)), s).

(** An awaited call of an approach method, recorded in [calls]. *)
Definition invoke {A} (c : Call) (f : W -> Res A * W) : M A :=
  fun s =>
    let (r, w) := f (world s) in
    (r, {| world := w; calls := calls s ++ [c]; console := console s |}).

Definition registerApproach (_approaches : JsMap.t Approach) (approach : Approach)
    : JsMap.t Approach :=
  JsMap.set (name approach) approach _approaches.

Definition getRegisteredApproaches (_approaches : JsMap.t Approach) : list string :=
  JsMap.keys _approaches.

(** The [for (const testCase of testCases)] loop of [evaluateApproach],
    with the two arrays it pushes onto. *)
Fixpoint processTestCases (approach : Approach) (testCases : list TestCase.t)
    (allPredictions : list TypePrediction.t)
    (allGroundTruth : list GroundTruthType.t)
    : M (list TypePrediction.t * list GroundTruthType.t) :=
  match testCases with
  | [] => ret (allPredictions, allGroundTruth)
  | testCase :: rest =>
      log (LogProcessing (TestCase.name testCase)) ;;
      predictions <-
        invoke (CallPredict (name approach) (TestCase.id testCase))
               (predict approach (TestCase.sourceCode testCase)
                                 (TestCase.id testCase)) ;;
      processTestCases approach rest
        (allPredictions ++ predictions)
        (allGroundTruth ++ TestCase.groundTruth testCase)
  end.

Definition notRegistered (approachName : string) : JsError :=
  ErrorMsg ("Approach '" ++ approachName ++ "' is not registered")%string.

Definition evaluateApproach (_approaches : JsMap.t Approach)
    (approachName : string) (testCases : list TestCase.t) (config : Config)
    : M EvaluationResult.t :=
  match JsMap.get approachName _approaches with
  | None => throw (notRegistered approachName)
  | Some approach =>
      log (LogEvaluating approachName) ;;
      invoke (CallInitialize (name approach)) (initialize approach config) ;;
      startTime <- dateNow ;;
      try_finally
        (pools <- processTestCases approach testCases [] [] ;;
         endTime <- dateNow ;;
         let executionTime := Q2Qc (inject_Z (endTime - startTime)) in
         let result :=
           EvaluationMetrics.generateEvaluationResult
             approachName (fst pools) (snd pools) executionTime in
         log (LogCompleted (EvaluationResult.accuracy result)) ;;
         ret result)
        (invoke (CallDispose (name approach)) (dispose approach))
  end.

(** [configByApproach.get(approachName) || {}]. *)
Definition configFor (configByApproach : JsMap.t Config) (approachName : string)
    : Config :=
  match JsMap.get approachName configByApproach with
  | Some config => config
  | None => JsMap.empty
  end.

(** The [for (const approachName of this._approaches.keys())] loop. *)
Fixpoint evaluateEach (_approaches : JsMap.t Approach)
    (testCases : list TestCase.t) (configByApproach : JsMap.t Config)
    (approachNames : list string) (results : JsMap.t EvaluationResult.t)
    : M (JsMap.t EvaluationResult.t) :=
  match approachNames with
  | [] => ret results
  | approachName :: rest =>
      let config := configFor configByApproach approachName in
      results' <-
        try_catch
          (result <- evaluateApproach _approaches approachName testCases config ;;
           ret (JsMap.set approachName result results))
          (fun error => log (ErrorFailed approachName error) ;; ret results) ;;
      evaluateEach _approaches testCases configByApproach rest results'
  end.

Definition evaluateAllApproaches (_approaches : JsMap.t Approach)
    (testCases : list TestCase.t) (configByApproach : JsMap.t Config)
    : M (JsMap.t EvaluationResult.t) :=
  evaluateEach _approaches testCases configByApproach
    (JsMap.keys _approaches) JsMap.empty.

End WithWorld.

Arguments name {W} _.
Arguments initialize {W} _ _ _.
Arguments predict {W} _ _ _ _.
Arguments dispose {W} _ _.
Arguments world {W} _.
Arguments calls {W} _.
Arguments console {W} _.

(** *** compareResults *)

(** [Number.POSITIVE_INFINITY] next to the finite times. *)
Inductive Time :=
| Finite (ms : Qc)
| PositiveInfinity.

(** [x < t] for a finite [x]. *)
Definition before (x : Qc) (t : Time) : bool :=
  match t with
  | Finite ms => Qc_ltb x ms
  | PositiveInfinity => true
  end.

Module Row.
Record t := {
  approach : string;
  accuracy : Qc;
  executionTime : Qc;
  correctPredictions : nat;
  totalPredictions : nat
}.
End Row.

Module BestAccuracy.
Record t := { approach : string; score : Qc }.
End BestAccuracy.

Module FastestExecution.
Record t := { approach : string; time : Time }.
End FastestExecution.

Module Summary.
Record t := {
  bestAccuracy : BestAccuracy.t;
  fastestExecution : FastestExecution.t;
  totalTestCases : nat
}.
End Summary.

Module Comparison.
Record t := {
  summary : Summary.t;
  detailedComparison : list Row.t
}.
End Comparison.

Definition toRow (entry : string * EvaluationResult.t) : Row.t :=
  let (approach, result) := entry in
  {| Row.approach := approach;
     Row.accuracy := EvaluationResult.accuracy result;
     Row.executionTime := EvaluationResult.executionTime result;
     Row.correctPredictions := EvaluationResult.correctPredictions result;
     Row.totalPredictions := EvaluationResult.totalPredictions result |}.

(** [Array.prototype.sort] with the comparator
    [(a, b) => b.accuracy - a.accuracy]: stable, [a] stays before [b] unless
    the comparator is positive. *)
Fixpoint insertRow (a : Row.t) (sorted : list Row.t) : list Row.t :=
  match sorted with
  | [] => [a]
  | b :: rest =>
      if Qc_ltb 0%Qc (Row.accuracy b - Row.accuracy a)%Qc
      then b :: insertRow a rest
      else a :: sorted
  end.

Definition sortRows (rows : list Row.t) : list Row.t :=
  fold_right insertRow [] rows.

(** Body of the [for (const current of comparison)] loop. *)
Definition compareStep (acc : BestAccuracy.t * FastestExecution.t)
    (current : Row.t) : BestAccuracy.t * FastestExecution.t :=
  let (bestAccuracy, fastestExecution) := acc in
  let bestAccuracy :=
    if Qc_ltb (BestAccuracy.score bestAccuracy) (Row.accuracy current)
    then {| BestAccuracy.approach := Row.approach current;
            BestAccuracy.score := Row.accuracy current |}
    else bestAccuracy in
  let fastestExecution :=
    if before (Row.executionTime current) (FastestExecution.time fastestExecution)
    then {| FastestExecution.approach := Row.approach current;
            FastestExecution.time := Finite (Row.executionTime current) |}
    else fastestExecution in
  (bestAccuracy, fastestExecution).

Definition compareResults (results : JsMap.t EvaluationResult.t) : Comparison.t :=
  let comparison := map toRow (JsMap.entries results) in
  let best :=
    fold_left compareStep comparison
      ({| BestAccuracy.approach := ""; BestAccuracy.score := (- (1))%Qc |},
       {| FastestExecution.approach := "";
          FastestExecution.time := PositiveInfinity |}) in
  let totalTestCases :=
    match comparison with
    | first :: _ => Row.totalPredictions first
    | [] => 0%nat
    end in
  {| Comparison.summary :=
       {| Summary.bestAccuracy := fst best;
          Summary.fastestExecution := snd best;
          Summary.totalTestCases := totalTestCases |};
     Comparison.detailedComparison := sortRows comparison |}.

End TypeInferenceEvaluator.

(** ** The pseudo-random number generator

    [prng.nextBoolean] and [prng.pickOne] live in the [prng] package, whose
    source is not part of the files at hand. *)

Module Prng.
Section WithGenerator.

(** The generator's seed state, and one draw from the unit interval. *)
Variable Gen : Type.
Variable random : Gen -> Qc * Gen.

(** Modelled from the spec: [prng.nextBoolean(trueChance)], absent from the
    sources.  "A per-occurrence independent Bernoulli decision with success
    probability randomTypeProbability": one draw [u] from [0,1) per call,
    success when [u < trueChance]. *)
Definition nextBoolean (trueChance : Qc) (g : Gen) : bool * Gen :=
  let (u, g') := random g in
  (Qc_ltb u trueChance, g').

(** Modelled from the spec: [prng.pickOne(options)], absent from the
    sources.  "The type label is drawn uniformly from availableTypes": one
    draw [u] from [0,1) per call selects index [floor(u * length)].  The spec
    does not say what happens without any option; here nothing is picked
    and the caller fails. *)
Definition pickOne {A} (options : list A) (g : Gen) : option A * Gen :=
  let (u, g') := random g in
  (nth_error options
     (Z.to_nat (Qfloor (u * num_of_nat (length options))%Qc)), g').

End WithGenerator.
End Prng.

(** ** RandomTypeInferenceApproach and its visitor *)

Module RandomTypeInferenceApproach.

(** What the [Identifier] callback inspects of [path.parent]: its kind
    and, where the callback asks, whether the identifier is the parent's
    [property], [key] or [id]. *)
Inductive Parent :=
| MemberExpression (isProperty : bool)
| Property (type : string) (isKey : bool)
| ClassMethod (isKey : bool)
| FunctionDeclaration (isId : bool)
| ClassDeclaration (isId : bool)
| AssignmentExpression
| VariableDeclarator
| CallExpression
| ReturnStatement
| OtherNode (type : string)
| NoParent.

(** An identifier occurrence: [path.node.name], [path.node.loc?.start] and
    [path.parent]. *)
Record IdentifierPath := {
  nodeName : string;
  loc : option Position;
  parent : Parent
}.

(** The callbacks the traversal invokes on the visitor, with what each
    reads of its node. *)
Inductive VisitEvent :=
| Identifier (path : IdentifierPath)
| ClassDeclarationEnter (id : option string)
| ClassDeclarationExit
| FunctionDeclarationEnter (id : option string)
| FunctionDeclarationExit
| ClassMethodEnter (identifierKey : option string)
| ClassMethodExit
| ArrowFunctionExpressionEnter
| ArrowFunctionExpressionExit
| FunctionExpressionEnter (id : option string)
| FunctionExpressionExit.

(** [name.includes(part)]. *)
Definition includes (name part : string) : bool :=
  match String.index 0 part name with
  | Some _ => true
  | None => false
  end.

(** [name.endsWith(suffix)]. *)
Definition endsWith (name suffix : string) : bool :=
  let n := String.length name in
  let k := String.length suffix in
  (k <=? n)%nat && String.eqb (String.substring (n - k) k name) suffix.

(** [n || 0] on a line or column. *)
Definition coordinate (n : option Z) : Z :=
  match n with Some z => z | None => 0%Z end.

(** Fields of [RandomTypeVisitor]; [_scopeStack] grows at its end. *)
Record RandomTypeVisitor := {
  _predictions : list TypePrediction.t;
  _availableTypes : list string;
  _randomTypeProbability : Qc;
  _scopeStack : list string
}.

Definition newRandomTypeVisitor (availableTypes : list string)
    (randomTypeProbability : Qc) : RandomTypeVisitor :=
  {| _predictions := [];
     _availableTypes := availableTypes;
     _randomTypeProbability := randomTypeProbability;
     _scopeStack := ["global"] |}.

(** The three scope operations, on the stack alone. *)
Definition currentScopeOf (stack : list string) : string :=
  match stack with
  | [] => "global"
  | _ => str_or (last stack "") "global"
  end.

Definition enterScopeOf (scope : string) (stack : list string) : list string :=
  stack ++ [scope].

Definition exitScopeOf (stack : list string) : list string :=
  if (1 <? length stack)%nat then removelast stack else stack.

Definition withScopeStack (v : RandomTypeVisitor) (stack : list string)
    : RandomTypeVisitor :=
  {| _predictions := _predictions v;
     _availableTypes := _availableTypes v;
     _randomTypeProbability := _randomTypeProbability v;
     _scopeStack := stack |}.

Definition _currentScope (v : RandomTypeVisitor) : string :=
  currentScopeOf (_scopeStack v).

Definition _enterScope (scope : string) (v : RandomTypeVisitor)
    : RandomTypeVisitor :=
  withScopeStack v (enterScopeOf scope (_scopeStack v)).

Definition _exitScope (v : RandomTypeVisitor) : RandomTypeVisitor :=
  withScopeStack v (exitScopeOf (_scopeStack v)).

Definition getPredictions (v : RandomTypeVisitor) : list TypePrediction.t :=
  _predictions v.

Definition _extractContext (path : IdentifierPath) : string :=
  match parent path with
  | AssignmentExpression => "assignment"
  | VariableDeclarator => "variable-declaration"
  | ClassMethod _ => "method-parameter"
  | MemberExpression _ => "member-access"
  | CallExpression => "function-call"
  | ReturnStatement => "return-statement"
  | Property type _ => str_or type "unknown"
  | FunctionDeclaration _ => "FunctionDeclaration"
  | ClassDeclaration _ => "ClassDeclaration"
  | OtherNode type => str_or type "unknown"
  | NoParent => "unknown"
  end.

Definition _extractSemanticHints (path : IdentifierPath) : list string :=
  let name := nodeName path in
  (if includes name "count" || includes name "length"
      || includes name "size" || includes name "index"
   then ["likely-number"] else [])
  ++ (if includes name "name" || includes name "title"
         || includes name "text" || includes name "message"
      then ["likely-string"] else [])
  ++ (if includes name "is" || includes name "has"
         || includes name "can" || includes name "should"
      then ["likely-boolean"] else [])
  ++ (if includes name "list" || includes name "array"
         || includes name "items" || endsWith name "s"
      then ["likely-array"] else []).

(** The guard at the head of the [Identifier] callback. *)
Definition skipped (path : IdentifierPath) : bool :=
  match parent path with
  | MemberExpression isProperty => isProperty
  | Property _ isKey => isKey
  | ClassMethod isKey => isKey
  | FunctionDeclaration isId => isId
  | ClassDeclaration isId => isId
  | _ => false
  end.

Section WithGenerator.
Variable Gen : Type.
Variable random : Gen -> Qc * Gen.

Definition _getRandomType (v : RandomTypeVisitor) (g : Gen)
    : option string * Gen :=
  Prng.pickOne Gen random (_availableTypes v) g.

Definition _shouldMakePrediction (v : RandomTypeVisitor) (g : Gen)
    : bool * Gen :=
  Prng.nextBoolean Gen random (_randomTypeProbability v) g.

Definition pickFailed : JsError := ErrorMsg "nothing to pick from".

Definition onIdentifier (path : IdentifierPath) (v : RandomTypeVisitor)
    (g : Gen) : Res RandomTypeVisitor * Gen :=
  if skipped path then (Ok v, g)
  else
    let (decision, g1) := _shouldMakePrediction v g in
    if decision then
      match _getRandomType v g1 with
      | (Some type, g2) =>
          let prediction :=
            {| TypePrediction.identifier := nodeName path;
               TypePrediction.predictedType := type;
               TypePrediction.position :=
                 {| line := coordinate (option_map line (loc path));
                    column := coordinate (option_map column (loc path)) |};
               TypePrediction.context :=
                 {| TypePrediction.scope := _currentScope v;
                    TypePrediction.syntacticContext := _extractContext path;
                    TypePrediction.semanticHints :=
                      _extractSemanticHints path |} |} in
          (Ok {| _predictions := _predictions v ++ [prediction];
                 _availableTypes := _availableTypes v;
                 _randomTypeProbability := _randomTypeProbability v;
                 _scopeStack := _scopeStack v |}, g2)
      | (None, g2) => (Err pickFailed, g2)
      end
    else (Ok v, g1).

(** One callback of the visitor. *)
Definition handle (ev : VisitEvent) (v : RandomTypeVisitor) (g : Gen)
    : Res RandomTypeVisitor * Gen :=
  match ev with
  | Identifier path => onIdentifier path v g
  | ClassDeclarationEnter (Some id) =>
      (Ok (_enterScope ("class:" ++ id)%string v), g)
  | ClassDeclarationEnter None => (Ok v, g)
  | FunctionDeclarationEnter (Some id) =>
      (Ok (_enterScope ("function:" ++ id)%string v), g)
  | FunctionDeclarationEnter None => (Ok v, g)
  | ClassMethodEnter (Some key) =>
      (Ok (_enterScope (_currentScope v ++ "." ++ key)%string v), g)
  | ClassMethodEnter None => (Ok v, g)
  | ArrowFunctionExpressionEnter =>
      (Ok (_enterScope (_currentScope v ++ ".arrow")%string v), g)
  | FunctionExpressionEnter id =>
      let name :=
        match id with
        | Some n => str_or n "anonymous"
        | None => "anonymous"
        end in
      (Ok (_enterScope (_currentScope v ++ "." ++ name)%string v), g)
  | ClassDeclarationExit
  | FunctionDeclarationExit
  | ClassMethodExit
  | ArrowFunctionExpressionExit
  | FunctionExpressionExit => (Ok (_exitScope v), g)
  end.

(** The callbacks of one traversal, until one of them throws: the visitor
    as the exception leaves it, and whether there was one. *)
Fixpoint runCallbacks (events : list VisitEvent) (v : RandomTypeVisitor)
    (g : Gen) : RandomTypeVisitor * bool * Gen :=
  match events with
  | [] => (v, false, g)
  | ev :: rest =>
      match handle ev v g with
      | (Ok v', g') => runCallbacks rest v' g'
      | (Err _, g') => (v, true, g')
      end
  end.

(** [visitor.visit(sourceCode, filePath)] parses the text and walks the
    tree; parser and traversal are external.  They fix, for a source
    text, the callbacks invoked in order, and whether the walk ends in an
    exception of its own. *)
Variable traverse : string -> string -> list VisitEvent * bool.

(** Fields of the approach object. *)
Record t := {
  availableTypes : list string;
  randomTypeProbability : Qc
}.

Definition defaults : t :=
  {| availableTypes :=
       ["boolean"; "string"; "number"; "object"; "array"; "function";
        "null"; "undefined"];
     randomTypeProbability := 1%Qc |}.

Definition initialize (config : Config) (a : t) : t :=
  let a1 :=
    match JsMap.get "availableTypes" config with
    | Some (UArray items) =>
        {| availableTypes := items;
           randomTypeProbability := randomTypeProbability a |}
    | _ => a
    end in
  match JsMap.get "randomTypeProbability" config with
  | Some (UNumber n) =>
      {| availableTypes := availableTypes a1; randomTypeProbability := n |}
  | _ => a1
  end.

(** [predict]: the predictions, whether a warning was written, and the
    generator afterwards.  The promise it returns is always resolved. *)
Definition predict (a : t) (sourceCode : string) (filePath : option string)
    (g : Gen) : list TypePrediction.t * bool * Gen :=
  let visitor :=
    newRandomTypeVisitor (availableTypes a) (randomTypeProbability a) in
  let file :=
    match filePath with
    | Some f => str_or f "unknown.js"
    | None => "unknown.js"
    end in
  let (events, walkThrows) := traverse sourceCode file in
  match runCallbacks events visitor g with
  | (visitor', callbackThrows, g') =>
      (getPredictions visitor', callbackThrows || walkThrows, g')
  end.

End WithGenerator.

End RandomTypeInferenceApproach.

(** ** Vocabulary of the specification *)

Module Spec.
Import EvaluationMetrics.

(** What a prediction is matched on: identifier name, line, column. *)
Definition identityOf (p : TypePrediction.t) : string * Z * Z :=
  (TypePrediction.identifier p,
   line (TypePrediction.position p),
   column (TypePrediction.position p)).

Definition identityOfTruth (g : GroundTruthType.t) : string * Z * Z :=
  (GroundTruthType.identifier g,
   line (GroundTruthType.position g),
   column (GroundTruthType.position g)).

(** Index of the first element satisfying [f]: tells apart the entries of
    a list that may hold equal values. *)
Fixpoint findIndex {A} (f : A -> bool) (l : list A) : option nat :=
  match l with
  | [] => None
  | x :: l' => if f x then Some 0%nat else option_map S (findIndex f l')
  end.

(** The ground-truth entry (by index) a prediction is matched to. *)
Definition matchedEntry (groundTruth : list GroundTruthType.t)
    (p : TypePrediction.t) : option nat :=
  findIndex (sameIdentity p) groundTruth.

Definition isEntry (k : nat) (o : option nat) : bool :=
  match o with Some j => Nat.eqb j k | None => false end.

(** The predictions matched to the ground-truth entry of index [k]. *)
Definition matchedTo (groundTruth : list GroundTruthType.t) (k : nat)
    (predictions : list TypePrediction.t) : list TypePrediction.t :=
  filter (fun p => isEntry k (matchedEntry groundTruth p)) predictions.

(** The matches one prediction gives rise to. *)
Definition matchesOf (groundTruth : list GroundTruthType.t)
    (p : TypePrediction.t) : list Match.t :=
  match find (sameIdentity p) groundTruth with
  | Some g => [mkMatch p g]
  | None => []
  end.

(** A prediction has a ground-truth entry of its identifier and position. *)
Definition matched (groundTruth : list GroundTruthType.t)
    (p : TypePrediction.t) : bool :=
  existsb (sameIdentity p) groundTruth.

(** ... and predicts the type of the first such entry. *)
Definition correctlyMatched (groundTruth : list GroundTruthType.t)
    (p : TypePrediction.t) : bool :=
  match find (sameIdentity p) groundTruth with
  | Some g =>
      String.eqb (TypePrediction.predictedType p) (GroundTruthType.actualType g)
  | None => false
  end.

(** The ground-truth entries whose actual type is [T]. *)
Definition ofActualType (T : string) (groundTruth : list GroundTruthType.t)
    : list GroundTruthType.t :=
  filter (fun g => String.eqb (GroundTruthType.actualType g) T) groundTruth.

(** The matches that are correct and whose actual type is [T]. *)
Definition correctOfType (T : string) (matches : list Match.t) : list Match.t :=
  filter (fun m => Match.correct m && String.eqb (Match.actualType m) T) matches.

(** [c / n], and [0] when [n] is [0]. *)
Definition ratio (c n : nat) : Qc :=
  match n with
  | O => 0%Qc
  | S _ => (num_of_nat c / num_of_nat n)%Qc
  end.

(** The entry of a mapping, a missing entry counting as [0]. *)
Definition entryOr0 (m : JsMap.t Qc) (T : string) : Qc :=
  match JsMap.get T m with Some x => x | None => 0%Qc end.

(** Operations on the scope stack. *)
Inductive ScopeOp :=
| EnterScope (scope : string)
| ExitScope.

Definition applyOp (stack : list string) (op : ScopeOp) : list string :=
  match op with
  | EnterScope scope => RandomTypeInferenceApproach.enterScopeOf scope stack
  | ExitScope => RandomTypeInferenceApproach.exitScopeOf stack
  end.

Definition runOps (ops : list ScopeOp) (stack : list string) : list string :=
  fold_left applyOp ops stack.

(** The predictions an approach returns for each test case in turn, or the
    error of the first [predict] that fails. *)
Fixpoint predictEach {W} (approach : TypeInferenceEvaluator.Approach W)
    (testCases : list TestCase.t) (w : W)
    : Res (list (list TypePrediction.t)) * W :=
  match testCases with
  | [] => (Ok [], w)
  | testCase :: rest =>
      match TypeInferenceEvaluator.predict approach
              (TestCase.sourceCode testCase) (TestCase.id testCase) w with
      | (Ok predictions, w1) =>
          match predictEach approach rest w1 with
          | (Ok others, w2) => (Ok (predictions :: others), w2)
          | (Err e, w2) => (Err e, w2)
          end
      | (Err e, w1) => (Err e, w1)
      end
  end.

(** The [predict] calls the evaluator makes for a list of test cases. *)
Definition predictCalls (approachName : string) (testCases : list TestCase.t)
    : list TypeInferenceEvaluator.Call :=
  map (fun tc => TypeInferenceEvaluator.CallPredict approachName (TestCase.id tc))
      testCases.

(** The configurations of the visitor under which no draw decides anything:
    probability [0], or probability [1] and a single available type. *)
Definition deterministic (v : RandomTypeInferenceApproach.RandomTypeVisitor) : Prop :=
  RandomTypeInferenceApproach._randomTypeProbability v = 0%Qc
  \/ (RandomTypeInferenceApproach._randomTypeProbability v = 1%Qc
      /\ exists type, RandomTypeInferenceApproach._availableTypes v = [type]).

(** How many [predict] calls that takes: all of them, or those up to and
    including the first that fails. *)
Fixpoint predictAttempts {W} (approach : TypeInferenceEvaluator.Approach W)
    (testCases : list TestCase.t) (w : W) : nat :=
  match testCases with
  | [] => 0
  | testCase :: rest =>
      match TypeInferenceEvaluator.predict approach
              (TestCase.sourceCode testCase) (TestCase.id testCase) w with
      | (Ok _, w1) => S (predictAttempts approach rest w1)
      | (Err _, _) => 1
      end
  end.

(** The lines [console.log] writes for a list of test cases. *)
Definition processingLogs (testCases : list TestCase.t)
    : list TypeInferenceEvaluator.ConsoleEvent :=
  map (fun tc => TypeInferenceEvaluator.LogProcessing (TestCase.name tc)) testCases.

(** What each iteration of the loop of [evaluateAllApproaches] gets from
    [evaluateApproach], in the order of the iterations: the name, and the
    result returned or the error caught.  Each attempt starts in the state
    the previous one (and the logging of its failure) left. *)
Fixpoint attempts (W : Type) (now : W -> Z)
    (_approaches : JsMap.t (TypeInferenceEvaluator.Approach W))
    (testCases : list TestCase.t) (configByApproach : JsMap.t Config)
    (approachNames : list string) (s : TypeInferenceEvaluator.State W)
    : list (string * Res EvaluationResult.t) :=
  match approachNames with
  | [] => []
  | approachName :: rest =>
      let config :=
        TypeInferenceEvaluator.configFor configByApproach approachName in
      match TypeInferenceEvaluator.evaluateApproach W now _approaches
              approachName testCases config s with
      | (Ok result, s1) =>
          (approachName, Ok result)
          :: attempts W now _approaches testCases configByApproach rest s1
      | (Err error, s1) =>
          (approachName, Err error)
          :: attempts W now _approaches testCases configByApproach rest
               (snd (TypeInferenceEvaluator.log W
                       (TypeInferenceEvaluator.ErrorFailed approachName error) s1))
      end
  end.

(** The result mapping a sequence of attempts leaves: the successful ones,
    under their names. *)
Definition collect (outcomes : list (string * Res EvaluationResult.t))
    (results : JsMap.t EvaluationResult.t) : JsMap.t EvaluationResult.t :=
  fold_left
    (fun acc '(approachName, outcome) =>
       match outcome with
       | Ok result => JsMap.set approachName result acc
       | Err _ => acc
       end)
    outcomes results.

(** The lines that announce the evaluation of an approach. *)
Definition announced (console : list TypeInferenceEvaluator.ConsoleEvent)
    : list string :=
  flat_map
    (fun ev =>
       match ev with
       | TypeInferenceEvaluator.LogEvaluating approachName => [approachName]
       | _ => []
       end)
    console.

(** The matches whose predicted type is [T]. *)
Definition predictedAs (T : string) (matches : list Match.t) : list Match.t :=
  filter (fun m => String.eqb (Match.predictedType m) T) matches.

(** A score: a number between [0] and [1]. *)
Definition isScore (v : Qc) : Prop := (0 <= v)%Qc /\ (v <= 1)%Qc.

(** Every entry of a mapping is a score. *)
Definition scores (m : JsMap.t Qc) : Prop := Forall (fun kv => isScore (snd kv)) m.

(** The names of the attempts that succeeded, in order. *)
Definition succeeded (outcomes : list (string * Res EvaluationResult.t))
    : list string :=
  flat_map
    (fun '(approachName, outcome) =>
       match outcome with
       | Ok _ => [approachName]
       | Err _ => []
       end)
    outcomes.

(** Rows in the order [compareResults] reports them: by descending accuracy. *)
Definition descending (a b : TypeInferenceEvaluator.Row.t) : Prop :=
  (TypeInferenceEvaluator.Row.accuracy b <= TypeInferenceEvaluator.Row.accuracy a)%Qc.

(** The rows of a given accuracy. *)
Definition ofAccuracy (x : Qc) (rows : list TypeInferenceEvaluator.Row.t)
    : list TypeInferenceEvaluator.Row.t :=
  filter (fun r => Qc_eq_bool (TypeInferenceEvaluator.Row.accuracy r) x) rows.

(** [t1 <= t2] on times. *)
Definition notAfter (t1 t2 : TypeInferenceEvaluator.Time) : Prop :=
  match t1, t2 with
  | _, TypeInferenceEvaluator.PositiveInfinity => True
  | TypeInferenceEvaluator.PositiveInfinity, TypeInferenceEvaluator.Finite _ => False
  | TypeInferenceEvaluator.Finite a, TypeInferenceEvaluator.Finite b => (a <= b)%Qc
  end.

(** A row as the best accuracy, and as the fastest execution. *)
Definition bestOf (r : TypeInferenceEvaluator.Row.t)
    : TypeInferenceEvaluator.BestAccuracy.t :=
  {| TypeInferenceEvaluator.BestAccuracy.approach :=
       TypeInferenceEvaluator.Row.approach r;
     TypeInferenceEvaluator.BestAccuracy.score :=
       TypeInferenceEvaluator.Row.accuracy r |}.

Definition fastestOf (r : TypeInferenceEvaluator.Row.t)
    : TypeInferenceEvaluator.FastestExecution.t :=
  {| TypeInferenceEvaluator.FastestExecution.approach :=
       TypeInferenceEvaluator.Row.approach r;
     TypeInferenceEvaluator.FastestExecution.time :=
       TypeInferenceEvaluator.Finite (TypeInferenceEvaluator.Row.executionTime r) |}.

(** Sequences of scope operations in which every [EnterScope] is closed by
    an [ExitScope] of its own. *)
Inductive balanced : list ScopeOp -> Prop :=
| balanced_nil : balanced []
| balanced_wrap scope ops :
    balanced ops -> balanced (EnterScope scope :: ops ++ [ExitScope])
| balanced_app ops1 ops2 :
    balanced ops1 -> balanced ops2 -> balanced (ops1 ++ ops2).

(** The callback that closes what an [enter] callback opens. *)
Definition exitOf (ev : RandomTypeInferenceApproach.VisitEvent)
    : option RandomTypeInferenceApproach.VisitEvent :=
  match ev with
  | RandomTypeInferenceApproach.ClassDeclarationEnter _ =>
      Some RandomTypeInferenceApproach.ClassDeclarationExit
  | RandomTypeInferenceApproach.FunctionDeclarationEnter _ =>
      Some RandomTypeInferenceApproach.FunctionDeclarationExit
  | RandomTypeInferenceApproach.ClassMethodEnter _ =>
      Some RandomTypeInferenceApproach.ClassMethodExit
  | RandomTypeInferenceApproach.ArrowFunctionExpressionEnter =>
      Some RandomTypeInferenceApproach.ArrowFunctionExpressionExit
  | RandomTypeInferenceApproach.FunctionExpressionEnter _ =>
      Some RandomTypeInferenceApproach.FunctionExpressionExit
  | _ => None
  end.

(** The nodes without a name of their own: a class or function declaration
    without [id], a method whose key is not an identifier. *)
Definition unnamed (ev : RandomTypeInferenceApproach.VisitEvent) : bool :=
  match ev with
  | RandomTypeInferenceApproach.ClassDeclarationEnter None
  | RandomTypeInferenceApproach.FunctionDeclarationEnter None
  | RandomTypeInferenceApproach.ClassMethodEnter None => true
  | _ => false
  end.

(** The identifier occurrences of a traversal that the [Identifier] callback
    does not skip. *)
Definition candidates (events : list RandomTypeInferenceApproach.VisitEvent)
    : list RandomTypeInferenceApproach.IdentifierPath :=
  flat_map
    (fun ev =>
       match ev with
       | RandomTypeInferenceApproach.Identifier path =>
           if RandomTypeInferenceApproach.skipped path then [] else [path]
       | _ => []
       end)
    events.

(** A prediction made of an identifier occurrence: its name, its position
    (or 0 where the node has none), its context and its hints. *)
Definition madeOf (path : RandomTypeInferenceApproach.IdentifierPath)
    (p : TypePrediction.t) : Prop :=
  TypePrediction.identifier p = RandomTypeInferenceApproach.nodeName path
  /\ TypePrediction.position p
     = {| line := RandomTypeInferenceApproach.coordinate
                    (option_map line (RandomTypeInferenceApproach.loc path));
          column := RandomTypeInferenceApproach.coordinate
                      (option_map column (RandomTypeInferenceApproach.loc path)) |}
  /\ TypePrediction.syntacticContext (TypePrediction.context p)
     = RandomTypeInferenceApproach._extractContext path
  /\ TypePrediction.semanticHints (TypePrediction.context p)
     = RandomTypeInferenceApproach._extractSemanticHints path.

(** [part] occurs somewhere in [name]. *)
Definition contains (name part : string) : Prop :=
  exists pre post, name = (pre ++ part ++ post)%string.

(** The failures written with [console.error]: approach and error. *)
Definition reported (console : list TypeInferenceEvaluator.ConsoleEvent)
    : list (string * JsError) :=
  flat_map
    (fun ev =>
       match ev with
       | TypeInferenceEvaluator.ErrorFailed approachName error =>
           [(approachName, error)]
       | _ => []
       end)
    console.

(** The attempts that failed, with the error caught. *)
Definition failed (outcomes : list (string * Res EvaluationResult.t))
    : list (string * JsError) :=
  flat_map
    (fun '(approachName, outcome) =>
       match outcome with
       | Ok _ => []
       | Err error => [(approachName, error)]
       end)
    outcomes.

(** The parents of which an identifier is only the name: the property of a
    member access, the key of a property or of a class method, the name of a
    declared function or class. *)
Inductive declarativeName : RandomTypeInferenceApproach.Parent -> Prop :=
| name_of_member :
    declarativeName (RandomTypeInferenceApproach.MemberExpression true)
| name_of_property type :
    declarativeName (RandomTypeInferenceApproach.Property type true)
| name_of_method :
    declarativeName (RandomTypeInferenceApproach.ClassMethod true)
| name_of_function :
    declarativeName (RandomTypeInferenceApproach.FunctionDeclaration true)
| name_of_class :
    declarativeName (RandomTypeInferenceApproach.ClassDeclaration true).

(** All identifier occurrences of a traversal, in order. *)
Definition identifiers (events : list RandomTypeInferenceApproach.VisitEvent)
    : list RandomTypeInferenceApproach.IdentifierPath :=
  flat_map
    (fun ev =>
       match ev with
       | RandomTypeInferenceApproach.Identifier path => [path]
       | _ => []
       end)
    events.

(** [l1] is [l2] with some elements left out: each element of [l2] is used
    at most once, and the order is kept. *)
Inductive subsequence {A : Type} : list A -> list A -> Prop :=
| subsequence_nil : subsequence [] []
| subsequence_take x l1 l2 : subsequence l1 l2 -> subsequence (x :: l1) (x :: l2)
| subsequence_skip x l1 l2 : subsequence l1 l2 -> subsequence l1 (x :: l2).

End Spec.

(** ** Example data *)

Module Examples.

Definition noContext : TypePrediction.Context :=
  {| TypePrediction.scope := "global";
     TypePrediction.syntacticContext := "variable-declaration";
     TypePrediction.semanticHints := [] |}.

Definition prediction (identifier predictedType : string) (l c : Z)
    : TypePrediction.t :=
  {| TypePrediction.identifier := identifier;
     TypePrediction.predictedType := predictedType;
     TypePrediction.position := {| line := l; column := c |};
     TypePrediction.context := noContext |}.

Definition truth (identifier actualType : string) (l c : Z)
    : GroundTruthType.t :=
  {| GroundTruthType.identifier := identifier;
     GroundTruthType.actualType := actualType;
     GroundTruthType.position := {| line := l; column := c |};
     GroundTruthType.scope := "global" |}.

(** The ground truth of the specification's scenarios. *)
Definition countTruth : GroundTruthType.t := truth "count" "number" 1 7.
Definition countAsNumber : TypePrediction.t := prediction "count" "number" 1 7.
Definition countAsString : TypePrediction.t := prediction "count" "string" 1 7.
Definition countElsewhere : TypePrediction.t := prediction "count" "number" 2 7.
Definition messageTruth : GroundTruthType.t := truth "message" "string" 2 7.

(** Approaches without a state of their own, and a clock that stands still. *)
Definition clock (w : unit) : Z := 0%Z.

Definition start : TypeInferenceEvaluator.State unit :=
  {| TypeInferenceEvaluator.world := tt;
     TypeInferenceEvaluator.calls := [];
     TypeInferenceEvaluator.console := [] |}.

(** [predict] rejects, [dispose] resolves. *)
Definition approachA : TypeInferenceEvaluator.Approach unit :=
  {| TypeInferenceEvaluator.name := "A";
     TypeInferenceEvaluator.initialize := fun _ w => (Ok tt, w);
     TypeInferenceEvaluator.predict :=
       fun _ _ w => (Err (ErrorMsg "predict failed"), w);
     TypeInferenceEvaluator.dispose := fun w => (Ok tt, w) |}.

(** [predict] rejects, and so does [dispose]. *)
Definition approachF : TypeInferenceEvaluator.Approach unit :=
  {| TypeInferenceEvaluator.name := "F";
     TypeInferenceEvaluator.initialize := fun _ w => (Ok tt, w);
     TypeInferenceEvaluator.predict :=
       fun _ _ w => (Err (ErrorMsg "predict failed"), w);
     TypeInferenceEvaluator.dispose :=
       fun w => (Err (ErrorMsg "dispose failed"), w) |}.

(** Predicts [x : string] at (1,1) for the test case "tc-1", nothing else. *)
Definition xAsString : TypePrediction.t := prediction "x" "string" 1 1.

Definition approachB : TypeInferenceEvaluator.Approach unit :=
  {| TypeInferenceEvaluator.name := "B";
     TypeInferenceEvaluator.initialize := fun _ w => (Ok tt, w);
     TypeInferenceEvaluator.predict :=
       fun _ filePath w =>
         (Ok (if String.eqb filePath "tc-1" then [xAsString] else []), w);
     TypeInferenceEvaluator.dispose := fun w => (Ok tt, w) |}.

(** Two test cases whose ground truths both have an [x] at (1,1). *)
Definition xNumber : GroundTruthType.t := truth "x" "number" 1 1.
Definition xString : GroundTruthType.t := truth "x" "string" 1 1.

Definition testCase1 : TestCase.t :=
  {| TestCase.id := "tc-1"; TestCase.name := "first";
     TestCase.sourceCode := "const x = 1;";
     TestCase.groundTruth := [xNumber] |}.

Definition testCase2 : TestCase.t :=
  {| TestCase.id := "tc-2"; TestCase.name := "second";
     TestCase.sourceCode := "const x = 'a';";
     TestCase.groundTruth := [xString] |}.

Definition registry (approaches : list (TypeInferenceEvaluator.Approach unit))
    : JsMap.t (TypeInferenceEvaluator.Approach unit) :=
  fold_left (TypeInferenceEvaluator.registerApproach unit) approaches JsMap.empty.

(** A generator that alternates between the draws [0] and [1/2]. *)
Definition alternating (g : nat) : Qc * nat :=
  (if Nat.even g then 0%Qc else Q2Qc (1 # 2), S g).

(** The callbacks for [const count = 1;]. *)
Definition countDeclaration : list RandomTypeInferenceApproach.VisitEvent :=
  [RandomTypeInferenceApproach.Identifier
     {| RandomTypeInferenceApproach.nodeName := "count";
        RandomTypeInferenceApproach.loc := Some {| line := 1; column := 6 |};
        RandomTypeInferenceApproach.parent :=
          RandomTypeInferenceApproach.VariableDeclarator |}].

Definition walk (sourceCode filePath : string)
    : list RandomTypeInferenceApproach.VisitEvent * bool :=
  (countDeclaration, false).

Definition onlyNumber : RandomTypeInferenceApproach.t :=
  {| RandomTypeInferenceApproach.availableTypes := ["number"];
     RandomTypeInferenceApproach.randomTypeProbability := 1%Qc |}.

Definition halfTheTime : RandomTypeInferenceApproach.t :=
  {| RandomTypeInferenceApproach.availableTypes := ["number"];
     RandomTypeInferenceApproach.randomTypeProbability := Q2Qc (1 # 2) |}.

(** [initialize] rejects. *)
Definition approachN : TypeInferenceEvaluator.Approach unit :=
  {| TypeInferenceEvaluator.name := "N";
     TypeInferenceEvaluator.initialize :=
       fun _ w => (Err (ErrorMsg "initialize failed"), w);
     TypeInferenceEvaluator.predict := fun _ _ w => (Ok [], w);
     TypeInferenceEvaluator.dispose := fun w => (Ok tt, w) |}.

(** Three results to compare: accuracies 1/2, 1, 1 and times 30, 20, 10. *)
Definition resultOf (approachName : string) (accuracy executionTime : Qc)
    : EvaluationResult.t :=
  {| EvaluationResult.approachName := approachName;
     EvaluationResult.predictions := [];
     EvaluationResult.accuracy := accuracy;
     EvaluationResult.precisionByType := JsMap.empty;
     EvaluationResult.recallByType := JsMap.empty;
     EvaluationResult.f1ScoreByType := JsMap.empty;
     EvaluationResult.totalPredictions := 2;
     EvaluationResult.correctPredictions := 1;
     EvaluationResult.executionTime := executionTime |}.

Definition threeResults : JsMap.t EvaluationResult.t :=
  [("slow", resultOf "slow" (Q2Qc (1 # 2)) (Q2Qc 30));
   ("good", resultOf "good" 1%Qc (Q2Qc 20));
   ("fast", resultOf "fast" 1%Qc (Q2Qc 10))].

End Examples.

(** * Properties *)

(** ** Facts about [JsMap] *)

Section JsMapFacts.
Context {V : Type}.
Implicit Types (m : JsMap.t V) (k : string) (v : V).

Lemma JsMap_get_set_same m k v : JsMap.get k (JsMap.set k v m) = Some v.
Proof.
  induction m as [|[k' v'] m IH]; simpl.
  - now rewrite String.eqb_refl.
  - destruct (String.eqb k' k) eqn:E; simpl; rewrite E; auto.
Qed.

Lemma JsMap_get_set_other m k k' v :
  k <> k' -> JsMap.get k' (JsMap.set k v m) = JsMap.get k' m.
Proof.
  intros Hne. induction m as [|[k0 v0] m IH]; simpl.
  - destruct (String.eqb k k') eqn:E; auto.
    apply String.eqb_eq in E. contradiction.
  - destruct (String.eqb k0 k) eqn:E; simpl.
    + apply String.eqb_eq in E. subst k0.
      destruct (String.eqb k k') eqn:E'; auto.
      apply String.eqb_eq in E'. contradiction.
    + now rewrite IH.
Qed.

Lemma JsMap_get_In_keys m k :
  JsMap.get k m <> None <-> In k (JsMap.keys m).
Proof.
  induction m as [|[k0 v0] m IH]; simpl.
  - split; [congruence | tauto].
  - destruct (String.eqb k0 k) eqn:E.
    + apply String.eqb_eq in E. split; [auto | congruence].
    + apply String.eqb_neq in E. rewrite IH. split; [auto | intros [H|H]; [contradiction | auto]].
Qed.

Lemma JsMap_get_None_keys m k :
  JsMap.get k m = None <-> ~ In k (JsMap.keys m).
Proof.
  rewrite <- JsMap_get_In_keys. split.
  - intros H H'. now apply H'.
  - intros H. destruct (JsMap.get k m); auto.
    exfalso. apply H. congruence.
Qed.

Lemma JsMap_keys_set m k v :
  JsMap.keys (JsMap.set k v m) =
  if JsMap.has k m then JsMap.keys m else JsMap.keys m ++ [k].
Proof.
  unfold JsMap.has. induction m as [|[k0 v0] m IH]; simpl; auto.
  destruct (String.eqb k0 k) eqn:E; simpl; auto.
  rewrite IH. destruct (JsMap.get k m); auto.
Qed.

Lemma JsMap_wf_set m k v : JsMap.wf m -> JsMap.wf (JsMap.set k v m).
Proof.
  unfold JsMap.wf. intros Hwf. rewrite JsMap_keys_set. unfold JsMap.has.
  destruct (JsMap.get k m) eqn:E; auto.
  apply JsMap_get_None_keys in E.
  apply NoDup_app; [assumption | repeat constructor; intros [] | ].
  intros x Hx [Hk|[]]. subst. contradiction.
Qed.

Lemma JsMap_wf_empty : JsMap.wf (@JsMap.empty V).
Proof. constructor. Qed.

(** Writing one entry per element of a list: a key of the list ends with
    the value written for it, the others keep theirs. *)
Lemma JsMap_get_fold_set (h : string -> V) (l : list string) m k :
  JsMap.get k (fold_left (fun acc x => JsMap.set x (h x) acc) l m) =
  if in_dec string_dec k l then Some (h k) else JsMap.get k m.
Proof.
  revert m. induction l as [|x l IH]; intros m; simpl; auto.
  rewrite IH. destruct (in_dec string_dec k l) as [Hin|Hnin].
  - destruct (string_dec x k); auto.
  - destruct (string_dec x k) as [->|Hne].
    + apply JsMap_get_set_same.
    + now apply JsMap_get_set_other.
Qed.

Lemma JsMap_keys_fold_set (h : string -> V) (l : list string) m k :
  In k (JsMap.keys (fold_left (fun acc x => JsMap.set x (h x) acc) l m)) <->
  In k l \/ In k (JsMap.keys m).
Proof.
  rewrite <- !JsMap_get_In_keys, JsMap_get_fold_set.
  destruct (in_dec string_dec k l); split; intros H; try congruence; tauto.
Qed.
End JsMapFacts.

(** ** Facts about numbers *)

Lemma num_of_nat_le (a b : nat) : (a <= b)%nat -> (num_of_nat a <= num_of_nat b)%Qc.
Proof.
  intros H. unfold Qcle, num_of_nat. cbn [this Q2Qc]. rewrite !Qred_correct.
  rewrite <- Zle_Qle. lia.
Qed.

Lemma num_of_nat_0 : num_of_nat 0 = 0%Qc.
Proof. reflexivity. Qed.

Lemma num_of_nat_S_neq_0 (n : nat) : num_of_nat (S n) <> 0%Qc.
Proof.
  intros H. unfold num_of_nat in H. apply Q2Qc_eq_iff in H.
  unfold Qeq in H. simpl in H. lia.
Qed.

Lemma Qcinv_nonneg (x : Qc) : (0 <= x)%Qc -> (0 <= / x)%Qc.
Proof.
  unfold Qcle, Qcinv. cbn [this Q2Qc]. intros H.
  change (Qred 0) with 0%Q in *.
  rewrite Qred_correct.
  now apply Qinv_le_0_compat.
Qed.

Lemma ratio_bounds (c n : nat) :
  (c <= n)%nat -> (0 <= Spec.ratio c n)%Qc /\ (Spec.ratio c n <= 1)%Qc.
Proof.
  intros Hcn. unfold Spec.ratio. destruct n as [|n].
  - split; [apply Qcle_refl | now unfold Qcle].
  - assert (Hinv : (0 <= / num_of_nat (S n))%Qc).
    { apply Qcinv_nonneg. rewrite <- num_of_nat_0. apply num_of_nat_le. lia. }
    unfold Qcdiv. split.
    + rewrite <- (Qcmult_0_l (/ num_of_nat (S n))).
      apply Qcmult_le_compat_r; auto.
      rewrite <- num_of_nat_0. apply num_of_nat_le. lia.
    + rewrite <- (Qcmult_inv_r (num_of_nat (S n))) by apply num_of_nat_S_neq_0.
      apply Qcmult_le_compat_r; auto. now apply num_of_nat_le.
Qed.

(** ** The matcher *)

Section MatcherFacts.
Import EvaluationMetrics Spec.
Implicit Types (p : TypePrediction.t) (g : GroundTruthType.t)
  (preds : list TypePrediction.t) (gt : list GroundTruthType.t).

Lemma sameIdentity_iff p g :
  sameIdentity p g = true <-> identityOfTruth g = identityOf p.
Proof.
  unfold sameIdentity, identityOfTruth, identityOf.
  rewrite !andb_true_iff, String.eqb_eq, !Z.eqb_eq.
  split; [intros [[-> ->] ->]; reflexivity | intros H; inversion H; auto].
Qed.

Lemma find_findIndex {A} (f : A -> bool) (l : list A) :
  find f l =
  match findIndex f l with Some k => nth_error l k | None => None end.
Proof.
  induction l as [|x l IH]; simpl; auto.
  destruct (f x); auto. rewrite IH. now destruct (findIndex f l).
Qed.

Lemma findIndex_Some {A} (f : A -> bool) (l : list A) k :
  findIndex f l = Some k ->
  exists x, nth_error l k = Some x /\ f x = true.
Proof.
  revert k. induction l as [|x l IH]; intros k; simpl; [discriminate|].
  destruct (f x) eqn:E.
  - intros [= <-]. exists x. simpl. auto.
  - destruct (findIndex f l) as [j|]; simpl; [|discriminate].
    intros [= <-]. now apply IH.
Qed.

Lemma getMatches_from preds gt (acc : list Match.t) :
  fold_left (matchStep gt) preds acc = acc ++ flat_map (matchesOf gt) preds.
Proof.
  revert acc. induction preds as [|p preds IH]; intros acc; simpl.
  - now rewrite app_nil_r.
  - rewrite IH. unfold matchStep, matchesOf.
    destruct (find (sameIdentity p) gt); simpl; auto.
    now rewrite <- app_assoc.
Qed.

Lemma getMatches_flat_map preds gt :
  getMatches preds gt = flat_map (matchesOf gt) preds.
Proof. unfold getMatches. now rewrite getMatches_from. Qed.

Lemma In_getMatches m preds gt :
  In m (getMatches preds gt) ->
  In (Match.prediction m) preds /\ In (Match.groundTruth m) gt
  /\ sameIdentity (Match.prediction m) (Match.groundTruth m) = true
  /\ m = mkMatch (Match.prediction m) (Match.groundTruth m).
Proof.
  rewrite getMatches_flat_map, in_flat_map. intros (p & Hp & Hm).
  unfold matchesOf in Hm. destruct (find (sameIdentity p) gt) as [g|] eqn:E.
  - destruct Hm as [<-|[]]. simpl. apply find_some in E. tauto.
  - destruct Hm.
Qed.

Lemma matchesOf_length p gt :
  length (matchesOf gt p) = if matched gt p then 1%nat else 0%nat.
Proof.
  unfold matchesOf, matched. induction gt as [|g gt IH]; simpl; auto.
  destruct (sameIdentity p g); simpl; auto.
Qed.

Lemma matchesOf_correct p gt :
  length (filter Match.correct (matchesOf gt p)) =
  if correctlyMatched gt p then 1%nat else 0%nat.
Proof.
  unfold matchesOf, correctlyMatched.
  destruct (find (sameIdentity p) gt) as [g|]; simpl; auto.
  now destruct (String.eqb _ _).
Qed.

Lemma getMatches_length preds gt :
  length (getMatches preds gt) = length (filter (matched gt) preds).
Proof.
  rewrite getMatches_flat_map. induction preds as [|p preds IH]; simpl; auto.
  rewrite length_app, IH, matchesOf_length.
  destruct (matched gt p); simpl; auto.
Qed.

Lemma getMatches_correct_length preds gt :
  length (filter Match.correct (getMatches preds gt)) =
  length (filter (correctlyMatched gt) preds).
Proof.
  rewrite getMatches_flat_map. induction preds as [|p preds IH]; simpl; auto.
  rewrite filter_app, length_app, IH, matchesOf_correct.
  destruct (correctlyMatched gt p); simpl; auto.
Qed.

Lemma matchedEntry_identity gt p k :
  matchedEntry gt p = Some k ->
  exists g, nth_error gt k = Some g /\ identityOfTruth g = identityOf p.
Proof.
  intros H. apply findIndex_Some in H as (g & Hg & Hs).
  exists g. split; auto. now apply sameIdentity_iff.
Qed.

Lemma matchedTo_unique preds gt k :
  NoDup (map identityOf preds) -> (length (matchedTo gt k preds) <= 1)%nat.
Proof.
  induction preds as [|p preds IH]; simpl; intros Hnd; [lia|].
  inversion Hnd as [|? ? Hnotin Hnd']; subst.
  destruct (isEntry k (matchedEntry gt p)) eqn:E; [|now apply IH].
  simpl. enough (matchedTo gt k preds = []) as -> by (simpl; lia).
  unfold matchedTo.
  destruct (filter _ preds) as [|q qs] eqn:F; auto. exfalso.
  assert (Hq : In q (filter (fun p => isEntry k (matchedEntry gt p)) preds))
    by (rewrite F; now left).
  apply filter_In in Hq as [Hin Hk].
  unfold isEntry in E, Hk.
  destruct (matchedEntry gt p) as [j|] eqn:Ep; [|discriminate].
  destruct (matchedEntry gt q) as [j'|] eqn:Eq; [|discriminate].
  apply Nat.eqb_eq in E, Hk. subst j j'.
  apply matchedEntry_identity in Ep as (g & Hg & Hgp).
  apply matchedEntry_identity in Eq as (g' & Hg' & Hgq).
  rewrite Hg in Hg'. injection Hg' as <-.
  apply Hnotin. rewrite <- Hgp, Hgq. now apply in_map.
Qed.
End MatcherFacts.

Section MatcherClaims.
Import EvaluationMetrics Spec.

Lemma matchesOf_entry (gt : list GroundTruthType.t) (p : TypePrediction.t) :
  matchesOf gt p =
  match matchedEntry gt p with
  | Some k =>
      match nth_error gt k with
      | Some g => [mkMatch p g]
      | None => []
      end
  | None => []
  end.
Proof.
  unfold matchesOf, matchedEntry. rewrite find_findIndex.
  destruct (findIndex (sameIdentity p) gt) as [k|]; auto.
Qed.

Lemma sameIdentity_of_identity (p1 p2 : TypePrediction.t) (g : GroundTruthType.t) :
  identityOf p1 = identityOf p2 -> sameIdentity p1 g = sameIdentity p2 g.
Proof.
  unfold identityOf, sameIdentity. intros H. inversion H as [[Hid Hline Hcol]].
  now rewrite Hid, Hline, Hcol.
Qed.

(** Predictions of one identifier, line and column are looked up alike. *)
Lemma matchedEntry_of_identity (gt : list GroundTruthType.t)
    (p1 p2 : TypePrediction.t) :
  identityOf p1 = identityOf p2 ->
  matchedEntry gt p1 = matchedEntry gt p2
  /\ map Match.groundTruth (matchesOf gt p1)
     = map Match.groundTruth (matchesOf gt p2).
Proof.
  intros Hid. unfold matchedEntry, matchesOf.
  induction gt as [|g gt [IH1 IH2]]; simpl; [auto|].
  rewrite (sameIdentity_of_identity p1 p2 g Hid).
  destruct (sameIdentity p2 g); simpl; [auto|].
  now rewrite IH1.
Qed.

(** C1, as amended.  Matching is exact on identifier and position: two
    predictions matched to the same ground-truth entry (the entry of index
    [k]) have the same identifier, line and column, so two predictions with
    different (line, column) never match the same entry; every prediction
    gives at most one match, with the first entry of its identity; a
    ground-truth entry is matched to at most one prediction as long as no two
    predictions share identifier, line and column; and predictions that do
    share all three are all matched to the same entry. *)
Theorem getMatches_positional_identity
    (preds : list TypePrediction.t) (gt : list GroundTruthType.t) :
  (forall p1 p2 k,
      matchedEntry gt p1 = Some k -> matchedEntry gt p2 = Some k ->
      identityOf p1 = identityOf p2)
  /\ (forall m1 m2,
        In m1 (getMatches preds gt) -> In m2 (getMatches preds gt) ->
        TypePrediction.position (Match.prediction m1)
          <> TypePrediction.position (Match.prediction m2) ->
        Match.groundTruth m1 <> Match.groundTruth m2)
  /\ (getMatches preds gt = flat_map (matchesOf gt) preds
      /\ forall p, (length (matchesOf gt p) <= 1)%nat)
  /\ (NoDup (map identityOf preds) ->
      forall k, (length (matchedTo gt k preds) <= 1)%nat)
  /\ (forall p1 p2,
        identityOf p1 = identityOf p2 ->
        matchedEntry gt p1 = matchedEntry gt p2
        /\ map Match.groundTruth (matchesOf gt p1)
           = map Match.groundTruth (matchesOf gt p2)).
Proof.
  split; [|split; [|split; [split|split]]].
  - intros p1 p2 k H1 H2.
    apply matchedEntry_identity in H1 as (g1 & Hg1 & E1).
    apply matchedEntry_identity in H2 as (g2 & Hg2 & E2).
    congruence.
  - intros m1 m2 H1 H2 Hpos Heq.
    apply In_getMatches in H1 as (_ & _ & S1 & _).
    apply In_getMatches in H2 as (_ & _ & S2 & _).
    apply sameIdentity_iff in S1, S2. rewrite Heq in S1.
    unfold identityOf in S1, S2. rewrite S1 in S2.
    apply Hpos.
    destruct (TypePrediction.position (Match.prediction m1)) as [l1 c1].
    destruct (TypePrediction.position (Match.prediction m2)) as [l2 c2].
    simpl in S2. congruence.
  - apply getMatches_flat_map.
  - intros p. rewrite matchesOf_length. destruct (matched gt p); lia.
  - intros Hnd k. now apply matchedTo_unique.
  - intros p1 p2. apply matchedEntry_of_identity.
Qed.

Lemma getMatches_positional_identity_witness :
  Match.groundTruth (mkMatch Examples.countAsNumber Examples.countTruth)
    <> Match.groundTruth
         (mkMatch Examples.countElsewhere (Examples.truth "count" "number" 2 7))
  /\ (length (matchedTo [Examples.countTruth; Examples.truth "count" "number" 2 7]
                0 [Examples.countAsNumber; Examples.countElsewhere]) <= 1)%nat
  /\ matchedEntry [Examples.countTruth; Examples.truth "count" "number" 2 7]
       Examples.countAsNumber
     = matchedEntry [Examples.countTruth; Examples.truth "count" "number" 2 7]
         Examples.countAsString.
Proof.
  destruct (getMatches_positional_identity
              [Examples.countAsNumber; Examples.countElsewhere]
              [Examples.countTruth; Examples.truth "count" "number" 2 7])
    as (_ & Hpos & _ & Hone & Hsame).
  split; [|split; [|apply Hsame; reflexivity]].
  - apply Hpos.
    + left. reflexivity.
    + right. left. reflexivity.
    + simpl. discriminate.
  - apply Hone. simpl. repeat constructor; simpl.
    + intros [H|[]]. discriminate H.
    + intros [].
Defined.

(** C1, as stated, fails: two predictions of the same identifier, line and
    column are both matched to the one ground-truth entry. *)
Lemma getMatches_entry_matched_twice :
  getMatches [Examples.countAsNumber; Examples.countAsString] [Examples.countTruth]
  = [mkMatch Examples.countAsNumber Examples.countTruth;
     mkMatch Examples.countAsString Examples.countTruth]
  /\ Examples.countAsNumber <> Examples.countAsString
  /\ matchedTo [Examples.countTruth] 0
       [Examples.countAsNumber; Examples.countAsString]
     = [Examples.countAsNumber; Examples.countAsString]
  /\ ~ (forall preds gt k, (length (matchedTo gt k preds) <= 1)%nat).
Proof.
  repeat split.
  - discriminate.
  - intros H.
    specialize (H [Examples.countAsNumber; Examples.countAsString]
                  [Examples.countTruth] 0%nat).
    simpl in H. lia.
Qed.

(** C2.  [calculateAccuracy] is the number of correct matches divided by the
    number of matches, [0] without matches, and lies in [0,1].  The matches
    are counted on the predictions: one per prediction that has a ground-truth
    entry of its identifier and position, correct when it predicts the type
    of the first such entry. *)
Theorem calculateAccuracy_exact
    (preds : list TypePrediction.t) (gt : list GroundTruthType.t) :
  let matches := getMatches preds gt in
  let correct := length (filter Match.correct matches) in
  let total := length matches in
  calculateAccuracy preds gt
  = (if (total =? 0)%nat then 0%Qc else (num_of_nat correct / num_of_nat total)%Qc)
  /\ total = length (filter (matched gt) preds)
  /\ correct = length (filter (correctlyMatched gt) preds)
  /\ (0 <= calculateAccuracy preds gt)%Qc
  /\ (calculateAccuracy preds gt <= 1)%Qc.
Proof.
  intros matches correct total.
  assert (Hacc : calculateAccuracy preds gt = ratio correct total).
  { unfold calculateAccuracy, ratio. fold matches. fold correct. fold total.
    destruct total; reflexivity. }
  split; [|split; [|split]].
  - rewrite Hacc. unfold ratio. destruct total; reflexivity.
  - apply getMatches_length.
  - apply getMatches_correct_length.
  - rewrite Hacc. apply ratio_bounds. apply filter_length_le.
Qed.

End MatcherClaims.

(** ** Recall and F1 by type *)

Section MetricsFacts.
Import EvaluationMetrics Spec.

Lemma count_or_succ (o : option nat) : count_or (Some (count_or o 0 + 1)%nat) 0 = S (count_or o 0).
Proof. rewrite Nat.add_1_r. reflexivity. Qed.

(** The counting loop of [groupByActualType], from any map reached so far. *)
Lemma groupByActualType_from (gt : list GroundTruthType.t) (acc : JsMap.t nat) (T : string) :
  JsMap.get T
    (fold_left
       (fun groups g =>
          JsMap.set (GroundTruthType.actualType g)
            (count_or (JsMap.get (GroundTruthType.actualType g) groups) 0 + 1)%nat
            groups)
       gt acc)
  = match length (ofActualType T gt) with
    | O => JsMap.get T acc
    | S n => Some (count_or (JsMap.get T acc) 0 + S n)%nat
    end.
Proof.
  revert acc. induction gt as [|g gt IH]; intros acc; simpl; auto.
  rewrite IH. destruct (String.eqb (GroundTruthType.actualType g) T) eqn:E; simpl.
  - apply String.eqb_eq in E. rewrite E.
    rewrite JsMap_get_set_same, count_or_succ.
    destruct (length (ofActualType T gt)); f_equal; lia.
  - apply String.eqb_neq in E. rewrite JsMap_get_set_other by assumption.
    reflexivity.
Qed.

Lemma groupByActualType_get (gt : list GroundTruthType.t) (ms : list Match.t) (T : string) :
  JsMap.get T (groupByActualType gt ms)
  = match length (ofActualType T gt) with
    | O => None
    | S n => Some (S n)
    end.
Proof.
  unfold groupByActualType. rewrite groupByActualType_from. simpl.
  destruct (length (ofActualType T gt)); reflexivity.
Qed.

Lemma groupByActualType_wf (gt : list GroundTruthType.t) (ms : list Match.t) :
  JsMap.wf (groupByActualType gt ms).
Proof.
  unfold groupByActualType.
  generalize (@JsMap_wf_empty nat). generalize (@JsMap.empty nat).
  induction gt as [|g gt IH]; intros acc Hacc; simpl; auto.
  apply IH. now apply JsMap_wf_set.
Qed.

(** Writing [h k v] for every entry [(k, v)] of a map. *)
Lemma JsMap_get_fold_entries {A B} (h : string -> A -> B)
    (l : JsMap.t A) (acc : JsMap.t B) (T : string) :
  JsMap.wf l ->
  JsMap.get T (fold_left (fun m '(k, v) => JsMap.set k (h k v) m) l acc)
  = match JsMap.get T l with
    | Some v => Some (h T v)
    | None => JsMap.get T acc
    end.
Proof.
  revert acc. induction l as [|[k v] l IH]; intros acc Hwf; simpl; auto.
  inversion Hwf as [|? ? Hnotin Hwf']; subst.
  rewrite IH by assumption.
  destruct (String.eqb k T) eqn:E.
  - apply String.eqb_eq in E. subst k.
    apply JsMap_get_None_keys in Hnotin. rewrite Hnotin.
    apply JsMap_get_set_same.
  - apply String.eqb_neq in E.
    destruct (JsMap.get T l); auto. now apply JsMap_get_set_other.
Qed.

Lemma ofActualType_present (gt : list GroundTruthType.t) (T : string) :
  In T (map GroundTruthType.actualType gt) -> (1 <= length (ofActualType T gt))%nat.
Proof.
  intros H. apply in_map_iff in H as (g & <- & Hg).
  assert (Hin : In g (ofActualType (GroundTruthType.actualType g) gt)).
  { apply filter_In. split; auto. apply String.eqb_refl. }
  destruct (ofActualType _ gt); [destruct Hin | simpl; lia].
Qed.

Lemma newSet_from (l acc : list string) (x : string) :
  In x (fold_left
          (fun s y => if existsb (String.eqb y) s then s else s ++ [y]) l acc)
  <-> In x acc \/ In x l.
Proof.
  revert acc. induction l as [|y l IH]; intros acc; simpl; [tauto|].
  rewrite IH. destruct (existsb (String.eqb y) acc) eqn:E.
  - apply existsb_exists in E as (z & Hz & Ez). apply String.eqb_eq in Ez. subst z.
    split; [tauto | intros [H|[<-|H]]; auto].
  - rewrite in_app_iff. simpl. tauto.
Qed.

Lemma In_newSet (l : list string) (x : string) : In x (newSet l) <-> In x l.
Proof. unfold newSet. rewrite newSet_from. simpl. tauto. Qed.

Lemma num_or_entryOr0 (m : JsMap.t Qc) (T : string) :
  num_or (JsMap.get T m) 0%Qc = entryOr0 m T.
Proof.
  unfold num_or, entryOr0. destruct (JsMap.get T m) as [x|]; auto.
  destruct (Qc_eq_dec x 0%Qc); auto.
Qed.

(** C3.  For a type label [T] present in the ground truth,
    [calculateRecallByType] has the entry (correct matches whose actual type
    is [T]) / (ground-truth entries whose actual type is [T]); the
    denominator is counted on the whole ground truth, whatever the
    predictions, and the quotient is [0] for a denominator [0]. *)
Theorem calculateRecallByType_exact
    (preds : list TypePrediction.t) (gt : list GroundTruthType.t) (T : string) :
  In T (map GroundTruthType.actualType gt) ->
  let correct := length (correctOfType T (getMatches preds gt)) in
  let population := length (ofActualType T gt) in
  JsMap.get T (calculateRecallByType preds gt) = Some (ratio correct population)
  /\ ratio correct population
     = (if (population =? 0)%nat then 0%Qc
        else (num_of_nat correct / num_of_nat population)%Qc)
  /\ (1 <= population)%nat.
Proof.
  intros Hin correct population.
  pose proof (ofActualType_present gt T Hin) as Hpop. fold population in Hpop.
  split; [|split; [unfold ratio; destruct population; reflexivity | assumption]].
  unfold calculateRecallByType, JsMap.entries.
  rewrite (JsMap_get_fold_entries
             (fun type n =>
                if (0 <? n)%nat
                then (num_of_nat
                        (length (filter (correctOfActual type) (getMatches preds gt)))
                      / num_of_nat n)%Qc
                else 0%Qc))
    by apply groupByActualType_wf.
  rewrite groupByActualType_get. fold population.
  destruct population as [|n]; [lia|].
  reflexivity.
Qed.

Lemma calculateRecallByType_exact_witness :
  JsMap.get "number"
    (calculateRecallByType [Examples.countAsNumber]
       [Examples.countTruth; Examples.messageTruth;
        Examples.truth "total" "number" 3 7])
  = Some (Spec.ratio 1 2).
Proof.
  apply (calculateRecallByType_exact [Examples.countAsNumber]
           [Examples.countTruth; Examples.messageTruth;
            Examples.truth "total" "number" 3 7] "number").
  simpl. auto.
Defined.

(** C4.  [calculateF1ScoreByType] has an entry exactly for the type labels
    that are a key of the precision mapping or of the recall mapping; with
    [P] and [R] the two entries of the label, a missing one counting as [0],
    the entry is [2*P*R/(P+R)] when [P+R > 0] and [0] when [P+R = 0]. *)
Theorem calculateF1ScoreByType_exact
    (precisionByType recallByType : JsMap.t Qc) (T : string) :
  let f1 := calculateF1ScoreByType precisionByType recallByType in
  let P := entryOr0 precisionByType T in
  let R := entryOr0 recallByType T in
  (In T (JsMap.keys f1)
   <-> In T (JsMap.keys precisionByType) \/ In T (JsMap.keys recallByType))
  /\ (In T (JsMap.keys precisionByType) \/ In T (JsMap.keys recallByType) ->
      exists v,
        JsMap.get T f1 = Some v
        /\ ((0 < P + R)%Qc -> v = (Q2Qc 2 * P * R / (P + R))%Qc)
        /\ ((P + R)%Qc = 0%Qc -> v = 0%Qc)).
Proof.
  intros f1 P R. unfold f1, calculateF1ScoreByType. split.
  - rewrite (JsMap_keys_fold_set
               (fun type =>
                  f1Of (num_or (JsMap.get type precisionByType) 0%Qc)
                       (num_or (JsMap.get type recallByType) 0%Qc))).
    rewrite In_newSet, in_app_iff. simpl. tauto.
  - intros Hin.
    rewrite (JsMap_get_fold_set
               (fun type =>
                  f1Of (num_or (JsMap.get type precisionByType) 0%Qc)
                       (num_or (JsMap.get type recallByType) 0%Qc))).
    destruct (in_dec string_dec T _) as [_|Hnot].
    + rewrite !num_or_entryOr0. fold P. fold R.
      eexists. split; [reflexivity|]. unfold f1Of.
      destruct (Qc_eq_dec (P + R)%Qc 0%Qc) as [E|E]; split; auto.
      * intros Hpos. rewrite E in Hpos. now apply Qclt_not_eq in Hpos.
      * intros E'. contradiction.
    + exfalso. apply Hnot. apply In_newSet, in_app_iff. exact Hin.
Qed.

End MetricsFacts.

Lemma calculateF1ScoreByType_exact_witness :
  exists v,
    JsMap.get "number"
      (EvaluationMetrics.calculateF1ScoreByType
         [("number", 1%Qc)] [("number", 1%Qc); ("string", 0%Qc)]) = Some v
    /\ v = (Q2Qc 2 * 1 * 1 / (1 + 1))%Qc.
Proof.
  destruct (calculateF1ScoreByType_exact
              [("number", 1%Qc)] [("number", 1%Qc); ("string", 0%Qc)] "number")
    as [_ H].
  destruct H as (v & Hv & Hpos & _).
  - left. simpl. auto.
  - exists v. split; [exact Hv|]. apply Hpos. reflexivity.
Defined.

(** *** The scenarios of the specification *)

Ltac qc_values :=
  cbv zeta; repeat split;
  try reflexivity;
  try (apply Qc_is_canon; vm_compute; reflexivity);
  try (vm_compute; apply f_equal; apply Qc_is_canon; reflexivity).

(** One prediction, of the right type, at the position of the one entry. *)
Example scenario_correct_prediction :
  let result :=
    EvaluationMetrics.generateEvaluationResult "approach"
      [Examples.countAsNumber] [Examples.countTruth] 0%Qc in
  EvaluationResult.accuracy result = 1%Qc
  /\ EvaluationResult.correctPredictions result = 1%nat
  /\ EvaluationResult.totalPredictions result = 1%nat
  /\ JsMap.get "number" (EvaluationResult.precisionByType result) = Some 1%Qc
  /\ JsMap.get "number" (EvaluationResult.recallByType result) = Some 1%Qc
  /\ JsMap.get "number" (EvaluationResult.f1ScoreByType result) = Some 1%Qc.
Proof.
  qc_values.
Qed.

(** The same entry, predicted as a string. *)
Example scenario_wrong_prediction :
  let result :=
    EvaluationMetrics.generateEvaluationResult "approach"
      [Examples.countAsString] [Examples.countTruth] 0%Qc in
  EvaluationResult.accuracy result = 0%Qc
  /\ JsMap.get "string" (EvaluationResult.precisionByType result) = Some 0%Qc
  /\ JsMap.get "number" (EvaluationResult.recallByType result) = Some 0%Qc
  /\ JsMap.get "number" (EvaluationResult.precisionByType result) = None
  /\ JsMap.get "string" (EvaluationResult.f1ScoreByType result) = Some 0%Qc.
Proof.
  qc_values.
Qed.

(** A prediction without a ground-truth entry of its position is dropped. *)
Example scenario_unmatched_prediction :
  EvaluationMetrics.getMatches [Examples.countElsewhere] [Examples.countTruth] = []
  /\ EvaluationMetrics.calculateAccuracy [Examples.countElsewhere] [Examples.countTruth]
     = 0%Qc.
Proof.
  qc_values.
Qed.

(** ** The scope stack *)

Section ScopeStackFacts.
Import RandomTypeInferenceApproach Spec.

Lemma exitScopeOf_root (root : string) (rest : list string) :
  exists rest', exitScopeOf (root :: rest) = root :: rest'.
Proof.
  unfold exitScopeOf. destruct rest as [|r rest]; simpl.
  - now exists [].
  - now exists (removelast (r :: rest)).
Qed.

Lemma runOps_root (ops : list ScopeOp) (root : string) (rest : list string) :
  exists rest', runOps ops (root :: rest) = root :: rest'.
Proof.
  revert rest. induction ops as [|op ops IH]; intros rest; simpl.
  - now exists rest.
  - destruct op as [scope|]; simpl.
    + apply IH.
    + destruct (exitScopeOf_root root rest) as (rest' & ->). apply IH.
Qed.

(** C7.  Whatever the sequence of [_enterScope] and [_exitScope] calls, the
    stack that starts as [["global"]] still has the root scope at its bottom;
    [_exitScope] on a stack that holds only the root changes nothing, and on
    a longer stack removes exactly the top entry. *)
Theorem scopeStack_never_below_root (ops : list ScopeOp) :
  (exists rest, runOps ops ["global"] = "global" :: rest)
  /\ (1 <= length (runOps ops ["global"]))%nat
  /\ (forall root, exitScopeOf [root] = [root])
  /\ (forall stack,
        (1 < length stack)%nat ->
        exitScopeOf stack = removelast stack
        /\ S (length (exitScopeOf stack)) = length stack).
Proof.
  destruct (runOps_root ops "global" []) as (rest & Hrest).
  split; [|split; [|split]].
  - now exists rest.
  - rewrite Hrest. simpl. lia.
  - reflexivity.
  - intros stack Hlen. unfold exitScopeOf.
    apply Nat.ltb_lt in Hlen. rewrite Hlen. split; auto.
    apply Nat.ltb_lt in Hlen.
    rewrite removelast_firstn_len, length_firstn. lia.
Qed.

Lemma scopeStack_never_below_root_witness :
  exitScopeOf ["global"; "class:Calculator"; "class:Calculator.add"]
  = ["global"; "class:Calculator"]
  /\ runOps [ExitScope; EnterScope "function:f"; ExitScope; ExitScope] ["global"]
     = ["global"].
Proof.
  split.
  - apply (scopeStack_never_below_root []). simpl. lia.
  - reflexivity.
Defined.

End ScopeStackFacts.

(** The callbacks of the visitor act on the stack through [_enterScope] and
    [_exitScope] only, so a traversal never takes the root off the stack. *)
Section VisitorScope.
Import RandomTypeInferenceApproach Spec.
Context {Gen : Type} (random : Gen -> Qc * Gen).

Lemma handle_keeps_root (ev : VisitEvent) (v v' : RandomTypeVisitor) (g g' : Gen)
    (root : string) (rest : list string) :
  _scopeStack v = root :: rest ->
  handle Gen random ev v g = (Ok v', g') ->
  exists rest', _scopeStack v' = root :: rest'.
Proof.
  intros Hstack.
  assert (Hexit : exists rest', _scopeStack (_exitScope v) = root :: rest').
  { simpl. rewrite Hstack. apply exitScopeOf_root. }
  assert (Henter : forall scope,
             exists rest', _scopeStack (_enterScope scope v) = root :: rest').
  { intros scope. simpl. rewrite Hstack. now exists (rest ++ [scope]). }
  destruct ev as [path|[id|]| |[id|]| |[key|]| | | |id|]; simpl;
    try (intros [= <- _]; eauto).
  unfold onIdentifier. destruct (skipped path); [intros [= <- _]; eauto|].
  destruct (_shouldMakePrediction Gen random v g) as [[|] g1];
    [|intros [= <- _]; eauto].
  destruct (_getRandomType Gen random v g1) as [[type|] g2];
    [intros [= <- _]; simpl; eauto | discriminate].
Qed.

Lemma runCallbacks_keeps_root (events : list VisitEvent) (v : RandomTypeVisitor)
    (g : Gen) (root : string) (rest : list string) :
  _scopeStack v = root :: rest ->
  exists rest',
    _scopeStack (fst (fst (runCallbacks Gen random events v g))) = root :: rest'.
Proof.
  revert v g rest. induction events as [|ev events IH]; intros v g rest Hstack; simpl.
  - eauto.
  - destruct (handle Gen random ev v g) as [[v'|e] g'] eqn:E; simpl; eauto.
    destruct (handle_keeps_root ev v v' g g' root rest Hstack E) as (rest' & H').
    eapply IH; eauto.
Qed.

End VisitorScope.

(** ** compareResults *)

(** C10.  On an empty result mapping [compareResults] returns, without
    failing, the initial best accuracy (no approach, score [-1], below every
    accuracy), the initial fastest execution (no approach, time positive
    infinity), [0] test cases and an empty detailed comparison. *)
Theorem compareResults_empty :
  TypeInferenceEvaluator.compareResults JsMap.empty
  = {| TypeInferenceEvaluator.Comparison.summary :=
         {| TypeInferenceEvaluator.Summary.bestAccuracy :=
              {| TypeInferenceEvaluator.BestAccuracy.approach := "";
                 TypeInferenceEvaluator.BestAccuracy.score := (- (1))%Qc |};
            TypeInferenceEvaluator.Summary.fastestExecution :=
              {| TypeInferenceEvaluator.FastestExecution.approach := "";
                 TypeInferenceEvaluator.FastestExecution.time :=
                   TypeInferenceEvaluator.PositiveInfinity |};
            TypeInferenceEvaluator.Summary.totalTestCases := 0 |};
       TypeInferenceEvaluator.Comparison.detailedComparison := [] |}
  /\ (TypeInferenceEvaluator.BestAccuracy.score
        (TypeInferenceEvaluator.Summary.bestAccuracy
           (TypeInferenceEvaluator.Comparison.summary
              (TypeInferenceEvaluator.compareResults JsMap.empty))) < 0)%Qc.
Proof. split; reflexivity. Qed.

(** ** The evaluator *)

Section EvaluatorFacts.
Import TypeInferenceEvaluator Spec.
Context {W : Type} (now : W -> Z).
Implicit Types (a : Approach W) (s : State W) (tcs : list TestCase.t)
  (reg : JsMap.t (Approach W)).

(** The loop over the test cases, in terms of the answers of [predict]. *)
Lemma processTestCases_run a tcs
    (P : list TypePrediction.t) (G : list GroundTruthType.t) s :
  processTestCases W a tcs P G s
  = (match fst (predictEach a tcs (world s)) with
     | Ok pss => Ok (P ++ concat pss, G ++ concat (map TestCase.groundTruth tcs))
     | Err e => Err e
     end,
     {| world := snd (predictEach a tcs (world s));
        calls := calls s
                 ++ predictCalls (name a) (firstn (predictAttempts a tcs (world s)) tcs);
        console := console s
                   ++ processingLogs (firstn (predictAttempts a tcs (world s)) tcs) |}).
Proof.
  revert P G s. induction tcs as [|tc tcs IH]; intros P G s.
  - simpl. unfold ret. rewrite !app_nil_r. now destruct s.
  - cbn [processTestCases]. unfold bind at 1. unfold log at 1.
    unfold bind at 1. unfold invoke at 1. cbn [world calls console].
    cbn [predictEach predictAttempts].
    destruct (predict a (TestCase.sourceCode tc) (TestCase.id tc) (world s))
      as [[ps|e] w1].
    + rewrite IH. cbn [world calls console].
      destruct (predictEach a tcs w1) as [[pss|e] w2]; cbn [fst snd];
        cbn [firstn predictCalls processingLogs map concat];
        rewrite <- ?app_assoc; reflexivity.
    + cbn [fst snd firstn predictCalls processingLogs map]. reflexivity.
Qed.

(** One evaluation, in terms of the answers of the approach. *)
Lemma evaluateApproach_run reg approachName a tcs (config : Config) s :
  JsMap.get approachName reg = Some a ->
  evaluateApproach W now reg approachName tcs config s
  = let console0 := console s ++ [LogEvaluating approachName] in
    let calls0 := calls s ++ [CallInitialize (name a)] in
    match initialize a config (world s) with
    | (Err e, w1) =>
        (Err e, {| world := w1; calls := calls0; console := console0 |})
    | (Ok _, w1) =>
        let n := predictAttempts a tcs w1 in
        let w2 := snd (predictEach a tcs w1) in
        let calls2 :=
          (calls0 ++ predictCalls (name a) (firstn n tcs)) ++ [CallDispose (name a)] in
        let console2 := console0 ++ processingLogs (firstn n tcs) in
        match fst (predictEach a tcs w1) with
        | Ok pss =>
            let result :=
              EvaluationMetrics.generateEvaluationResult approachName
                (concat pss) (concat (map TestCase.groundTruth tcs))
                (Q2Qc (inject_Z (now w2 - now w1))) in
            (match fst (dispose a w2) with
             | Ok _ => Ok result
             | Err e2 => Err e2
             end,
             {| world := snd (dispose a w2); calls := calls2;
                console := console2 ++ [LogCompleted (EvaluationResult.accuracy result)] |})
        | Err e =>
            (match fst (dispose a w2) with
             | Ok _ => Err e
             | Err e2 => Err e2
             end,
             {| world := snd (dispose a w2); calls := calls2; console := console2 |})
        end
    end.
Proof.
  intros Hreg. unfold evaluateApproach. rewrite Hreg.
  unfold bind at 1. unfold log at 1. unfold bind at 1. unfold invoke at 1.
  cbn [world calls console].
  destruct (initialize a config (world s)) as [[u|e] w1]; [|reflexivity].
  unfold bind at 1. unfold dateNow at 1. cbn [world calls console].
  unfold try_finally. unfold bind at 1. rewrite processTestCases_run.
  cbn [world calls console app].
  destruct (predictEach a tcs w1) as [[pss|e] w2]; cbn [fst snd].
  - unfold bind, dateNow, log, ret, invoke. cbn [world calls console fst snd].
    destruct (dispose a w2) as [[u'|e2] w3]; reflexivity.
  - unfold invoke. cbn [world calls console].
    destruct (dispose a w2) as [[u'|e2] w3]; reflexivity.
Qed.

(** C5, as amended.  When [predict] fails for some test case, no further
    [predict] is made and [dispose] is still invoked, once, as the last call
    on the approach.  If [dispose] then resolves, the evaluation fails with
    the error of [predict]; if [dispose] rejects too, the evaluation fails
    with the error of [dispose], which takes the place of the error of
    [predict]. *)
Theorem evaluateApproach_disposes_after_predict_failure
    reg approachName a tcs (config : Config) s (w1 w2 : W) (e : JsError) :
  JsMap.get approachName reg = Some a ->
  initialize a config (world s) = (Ok tt, w1) ->
  predictEach a tcs w1 = (Err e, w2) ->
  let run := evaluateApproach W now reg approachName tcs config s in
  let n := predictAttempts a tcs w1 in
  calls (snd run)
  = calls s ++ [CallInitialize (name a)]
    ++ predictCalls (name a) (firstn n tcs) ++ [CallDispose (name a)]
  /\ world (snd run) = snd (dispose a w2)
  /\ fst run
     = match fst (dispose a w2) with
       | Ok _ => Err e
       | Err e2 => Err e2
       end.
Proof.
  intros Hreg Hinit Hpredict run n. unfold run.
  rewrite (evaluateApproach_run reg approachName a tcs config s Hreg).
  cbv zeta. rewrite Hinit, Hpredict. cbn [fst snd world calls].
  fold n. rewrite <- !app_assoc. auto.
Qed.

Lemma find_first {A} (f : A -> bool) (l1 l2 : list A) (x : A) :
  (forall y, In y l1 -> f y = false) -> f x = true ->
  find f (l1 ++ x :: l2) = Some x.
Proof.
  intros Hl1 Hx. induction l1 as [|y l1 IH]; simpl.
  - now rewrite Hx.
  - rewrite (Hl1 y) by now left. apply IH. intros z Hz. apply Hl1. now right.
Qed.

Lemma find_present {A} (f : A -> bool) (l : list A) (x : A) :
  In x l -> f x = true -> exists y, find f l = Some y.
Proof.
  intros Hin Hx. destruct (find f l) as [y|] eqn:E; [now exists y|].
  rewrite (find_none f l E x Hin) in Hx. discriminate.
Qed.

(** C9, as amended.  [evaluateApproach] scores the concatenation of the
    predictions of all test cases against the concatenation of their ground
    truths.  So a prediction produced for one test case that has the
    identifier, line and column of a ground-truth entry of any test case is
    matched: to the first entry of the pooled ground truth with that
    identifier, line and column, which is the entry of the other test case
    when no earlier entry of the pool coincides with the prediction. *)
Theorem evaluateApproach_pools_test_cases
    reg approachName a tcs (config : Config) s (w1 w2 w3 : W)
    (pss : list (list TypePrediction.t)) :
  JsMap.get approachName reg = Some a ->
  initialize a config (world s) = (Ok tt, w1) ->
  predictEach a tcs w1 = (Ok pss, w2) ->
  dispose a w2 = (Ok tt, w3) ->
  let allPredictions := concat pss in
  let allGroundTruth := concat (map TestCase.groundTruth tcs) in
  fst (evaluateApproach W now reg approachName tcs config s)
  = Ok (EvaluationMetrics.generateEvaluationResult approachName
          allPredictions allGroundTruth (Q2Qc (inject_Z (now w2 - now w1))))
  /\ forall i j ps tc p g,
       nth_error pss i = Some ps -> In p ps ->
       nth_error tcs j = Some tc -> In g (TestCase.groundTruth tc) ->
       EvaluationMetrics.sameIdentity p g = true ->
       exists g0,
         find (EvaluationMetrics.sameIdentity p) allGroundTruth = Some g0
         /\ In (EvaluationMetrics.mkMatch p g0)
               (EvaluationMetrics.getMatches allPredictions allGroundTruth)
         /\ identityOfTruth g0 = identityOfTruth g
         /\ (forall G1 G2,
               allGroundTruth = G1 ++ g :: G2 ->
               (forall g', In g' G1 -> EvaluationMetrics.sameIdentity p g' = false) ->
               g0 = g).
Proof.
  intros Hreg Hinit Hpredict Hdispose allPredictions allGroundTruth. split.
  - rewrite (evaluateApproach_run reg approachName a tcs config s Hreg).
    cbv zeta. rewrite Hinit, Hpredict. cbn [fst snd]. rewrite Hdispose.
    reflexivity.
  - intros i j ps tc p g Hps Hp Htc Hg Hsame.
    assert (HinP : In p allPredictions).
    { apply in_concat. exists ps. split; auto. eapply nth_error_In; eauto. }
    assert (HinG : In g allGroundTruth).
    { apply in_concat. exists (TestCase.groundTruth tc). split; auto.
      apply in_map. eapply nth_error_In; eauto. }
    destruct (find_present _ _ _ HinG Hsame) as (g0 & Hfind).
    exists g0. split; [exact Hfind|]. split; [|split].
    + rewrite getMatches_flat_map. apply in_flat_map. exists p. split; auto.
      unfold matchesOf. rewrite Hfind. now left.
    + apply find_some in Hfind as [_ Hg0].
      apply sameIdentity_iff in Hg0, Hsame. congruence.
    + intros G1 G2 Hsplit Hbefore. rewrite Hsplit in Hfind.
      rewrite (find_first _ G1 G2 g Hbefore Hsame) in Hfind. congruence.
Qed.

Lemma announced_app (l1 l2 : list ConsoleEvent) :
  announced (l1 ++ l2) = announced l1 ++ announced l2.
Proof. apply flat_map_app. Qed.

Lemma announced_processingLogs tcs : announced (processingLogs tcs) = [].
Proof. induction tcs; simpl; auto. Qed.

Lemma evaluateApproach_announces reg approachName a tcs (config : Config) s :
  JsMap.get approachName reg = Some a ->
  announced (console (snd (evaluateApproach W now reg approachName tcs config s)))
  = announced (console s) ++ [approachName].
Proof.
  intros Hreg.
  rewrite (evaluateApproach_run reg approachName a tcs config s Hreg).
  cbv zeta.
  destruct (initialize a config (world s)) as [[u|e] w1]; cbn [snd console].
  - destruct (fst (predictEach a tcs w1)); cbn [snd console];
      rewrite !announced_app, announced_processingLogs; simpl;
      now rewrite ?app_nil_r.
  - now rewrite announced_app.
Qed.

(** The loop over the approaches never fails, and leaves the results of the
    attempts that succeeded. *)
Lemma evaluateEach_run reg tcs (configs : JsMap.t Config)
    (names : list string) (results : JsMap.t EvaluationResult.t) s :
  fst (evaluateEach W now reg tcs configs names results s)
  = Ok (collect (attempts W now reg tcs configs names s) results).
Proof.
  revert results s. induction names as [|n names IH]; intros results s.
  - reflexivity.
  - cbn [evaluateEach attempts]. unfold bind at 1. unfold try_catch.
    unfold bind at 1.
    destruct (evaluateApproach W now reg n tcs (configFor configs n) s)
      as [[r|e] s1].
    + unfold ret at 1. rewrite IH. reflexivity.
    + unfold bind at 1. unfold log at 1. unfold ret at 1.
      rewrite IH. reflexivity.
Qed.

Lemma evaluateEach_announces reg tcs (configs : JsMap.t Config)
    (names : list string) (results : JsMap.t EvaluationResult.t) s :
  (forall n, In n names -> JsMap.get n reg <> None) ->
  announced (console (snd (evaluateEach W now reg tcs configs names results s)))
  = announced (console s) ++ names.
Proof.
  revert results s. induction names as [|n names IH]; intros results s Hreg.
  - simpl. now rewrite app_nil_r.
  - destruct (JsMap.get n reg) as [a|] eqn:Ea;
      [|exfalso; apply (Hreg n); [now left | exact Ea]].
    pose proof (evaluateApproach_announces reg n a tcs (configFor configs n) s Ea)
      as Hann.
    cbn [evaluateEach]. unfold bind at 1. unfold try_catch. unfold bind at 1.
    destruct (evaluateApproach W now reg n tcs (configFor configs n) s)
      as [[r|e] s1]; cbn [snd] in Hann.
    + unfold ret at 1. rewrite IH by (intros; apply Hreg; now right).
      rewrite Hann, <- app_assoc. reflexivity.
    + unfold bind at 1. unfold log at 1. unfold ret at 1.
      rewrite IH by (intros; apply Hreg; now right).
      cbn [console]. rewrite announced_app, Hann. simpl.
      rewrite app_nil_r, <- app_assoc. reflexivity.
Qed.

Lemma attempts_names reg tcs (configs : JsMap.t Config) (names : list string) s :
  map fst (attempts W now reg tcs configs names s) = names.
Proof.
  revert s. induction names as [|n names IH]; intros s; simpl; auto.
  destruct (evaluateApproach W now reg n tcs (configFor configs n) s)
    as [[r|e] s1]; simpl; now rewrite IH.
Qed.

Lemma collect_other (outcomes : list (string * Res EvaluationResult.t))
    (results : JsMap.t EvaluationResult.t) (n : string) :
  ~ In n (map fst outcomes) ->
  JsMap.get n (collect outcomes results) = JsMap.get n results.
Proof.
  revert results. induction outcomes as [|[n' o] outcomes IH]; intros results Hn;
    simpl; auto.
  simpl in Hn. unfold collect in *. simpl. rewrite IH by tauto.
  destruct o; auto. apply JsMap_get_set_other. tauto.
Qed.

Lemma collect_get (outcomes : list (string * Res EvaluationResult.t))
    (results : JsMap.t EvaluationResult.t) (n : string)
    (o : Res EvaluationResult.t) :
  NoDup (map fst outcomes) -> In (n, o) outcomes ->
  JsMap.get n (collect outcomes results)
  = match o with
    | Ok r => Some r
    | Err _ => JsMap.get n results
    end.
Proof.
  revert results. induction outcomes as [|[n' o'] outcomes IH];
    intros results Hnd Hin; [destruct Hin|].
  inversion Hnd as [|? ? Hnotin Hnd']; subst.
  destruct Hin as [[= -> ->]|Hin].
  - unfold collect. simpl. fold (collect outcomes).
    change (fold_left _ outcomes ?r) with (collect outcomes r).
    rewrite collect_other by assumption.
    destruct o; auto. apply JsMap_get_set_same.
  - unfold collect. simpl.
    change (fold_left _ outcomes ?r) with (collect outcomes r).
    rewrite (IH _ Hnd' Hin).
    destruct o; auto. destruct o'; auto.
    apply JsMap_get_set_other. intros ->. apply Hnotin.
    change n with (fst (n, @Err EvaluationResult.t e)). now apply in_map.
Qed.

(** A registry filled by [registerApproach] is a [Map]. *)
Lemma registerApproach_wf reg a : JsMap.wf reg -> JsMap.wf (registerApproach W reg a).
Proof. apply JsMap_wf_set. Qed.

Lemma registered_wf (approaches : list (Approach W)) reg :
  JsMap.wf reg -> JsMap.wf (fold_left (registerApproach W) approaches reg).
Proof.
  revert reg. induction approaches as [|a approaches IH]; intros reg Hwf; simpl; auto.
  apply IH. now apply registerApproach_wf.
Qed.

(** C6.  [evaluateAllApproaches] never fails.  It attempts every registered
    approach once, in registration order, whatever became of the earlier
    attempts: an approach whose evaluation threw has no entry in the
    returned mapping, one whose evaluation returned has its result there.
    Without registered approaches the mapping is empty and nothing
    happened. *)
Theorem evaluateAllApproaches_isolates_failures
    reg tcs (configs : JsMap.t Config) s :
  JsMap.wf reg ->
  let run := evaluateAllApproaches W now reg tcs configs s in
  let outcomes := attempts W now reg tcs configs (JsMap.keys reg) s in
  exists results,
    fst run = Ok results
    /\ map fst outcomes = JsMap.keys reg
    /\ announced (console (snd run)) = announced (console s) ++ JsMap.keys reg
    /\ (forall n e, In (n, Err e) outcomes -> JsMap.get n results = None)
    /\ (forall n r, In (n, Ok r) outcomes -> JsMap.get n results = Some r)
    /\ (JsMap.keys reg = [] -> results = JsMap.empty /\ snd run = s).
Proof.
  intros Hwf run outcomes.
  exists (collect outcomes JsMap.empty).
  assert (Hnames : map fst outcomes = JsMap.keys reg) by apply attempts_names.
  assert (Hnd : NoDup (map fst outcomes)) by (rewrite Hnames; exact Hwf).
  split; [apply evaluateEach_run|]. split; [exact Hnames|]. split; [|split; [|split]].
  - apply evaluateEach_announces. intros n Hn. now apply JsMap_get_In_keys.
  - intros n e Hin. now rewrite (collect_get _ _ _ _ Hnd Hin).
  - intros n r Hin. now rewrite (collect_get _ _ _ _ Hnd Hin).
  - intros Hempty. unfold run, outcomes, evaluateAllApproaches.
    rewrite Hempty. split; reflexivity.
Qed.

End EvaluatorFacts.

(** *** The evaluator on concrete approaches *)

Lemma registry_wf (approaches : list (TypeInferenceEvaluator.Approach unit)) :
  JsMap.wf (Examples.registry approaches).
Proof. apply registered_wf. constructor. Qed.

Lemma evaluateApproach_disposes_after_predict_failure_witness :
  TypeInferenceEvaluator.calls
    (snd (TypeInferenceEvaluator.evaluateApproach unit Examples.clock
            (Examples.registry [Examples.approachA]) "A"
            [Examples.testCase1; Examples.testCase2] JsMap.empty Examples.start))
  = [TypeInferenceEvaluator.CallInitialize "A";
     TypeInferenceEvaluator.CallPredict "A" "tc-1";
     TypeInferenceEvaluator.CallDispose "A"]
  /\ fst (TypeInferenceEvaluator.evaluateApproach unit Examples.clock
            (Examples.registry [Examples.approachA]) "A"
            [Examples.testCase1; Examples.testCase2] JsMap.empty Examples.start)
     = Err (ErrorMsg "predict failed").
Proof.
  destruct (evaluateApproach_disposes_after_predict_failure Examples.clock
              (Examples.registry [Examples.approachA]) "A" Examples.approachA
              [Examples.testCase1; Examples.testCase2] JsMap.empty Examples.start
              tt tt (ErrorMsg "predict failed") eq_refl eq_refl eq_refl)
    as (Hcalls & _ & Hresult).
  split; [exact Hcalls | exact Hresult].
Defined.

(** C5, as stated, fails: when [predict] fails with one error and [dispose]
    with another, the evaluation fails with the error of [dispose]. *)
Lemma evaluateApproach_dispose_error_supersedes :
  Spec.predictEach Examples.approachF [Examples.testCase1] tt
  = (Err (ErrorMsg "predict failed"), tt)
  /\ TypeInferenceEvaluator.dispose Examples.approachF tt
     = (Err (ErrorMsg "dispose failed"), tt)
  /\ fst (TypeInferenceEvaluator.evaluateApproach unit Examples.clock
            (Examples.registry [Examples.approachF]) "F"
            [Examples.testCase1] JsMap.empty Examples.start)
     = Err (ErrorMsg "dispose failed")
  /\ fst (TypeInferenceEvaluator.evaluateApproach unit Examples.clock
            (Examples.registry [Examples.approachF]) "F"
            [Examples.testCase1] JsMap.empty Examples.start)
     <> Err (ErrorMsg "predict failed")
  /\ ~ (forall reg approachName a tcs (config : Config) s e,
          JsMap.get approachName reg = Some a ->
          TypeInferenceEvaluator.initialize a config (TypeInferenceEvaluator.world s)
          = (Ok tt, tt) ->
          Spec.predictEach a tcs tt = (Err e, tt) ->
          fst (TypeInferenceEvaluator.evaluateApproach unit Examples.clock
                 reg approachName tcs config s)
          = Err e).
Proof.
  split; [reflexivity|]. split; [reflexivity|]. split; [reflexivity|].
  split; [discriminate|].
  intros H.
  specialize (H (Examples.registry [Examples.approachF]) "F" Examples.approachF
                [Examples.testCase1] JsMap.empty Examples.start
                (ErrorMsg "predict failed") eq_refl eq_refl eq_refl).
  discriminate H.
Qed.

Lemma evaluateAllApproaches_isolates_failures_witness :
  exists results,
    fst (TypeInferenceEvaluator.evaluateAllApproaches unit Examples.clock
           (Examples.registry [Examples.approachA; Examples.approachB])
           [Examples.testCase1] JsMap.empty Examples.start) = Ok results
    /\ JsMap.get "A" results = None.
Proof.
  assert (Hwf : JsMap.wf (Examples.registry [Examples.approachA; Examples.approachB])).
  { unfold JsMap.wf. simpl. repeat constructor; simpl.
    - intros [H|[]]. discriminate H.
    - intros []. }
  destruct (evaluateAllApproaches_isolates_failures Examples.clock
              (Examples.registry [Examples.approachA; Examples.approachB])
              [Examples.testCase1] JsMap.empty Examples.start Hwf)
    as (results & Hrun & _ & _ & Herr & _).
  exists results. split; [exact Hrun|].
  apply (Herr "A" (ErrorMsg "predict failed")). left. reflexivity.
Defined.

(** The scenario of the specification: A throws during [predict], B
    succeeds; the mapping holds only B's result, A was disposed of, and B
    was evaluated after A had failed. *)
Example evaluateAllApproaches_A_fails_B_succeeds :
  let run :=
    TypeInferenceEvaluator.evaluateAllApproaches unit Examples.clock
      (Examples.registry [Examples.approachA; Examples.approachB])
      [Examples.testCase1] JsMap.empty Examples.start in
  (exists results, fst run = Ok results /\ JsMap.keys results = ["B"])
  /\ TypeInferenceEvaluator.calls (snd run)
     = [TypeInferenceEvaluator.CallInitialize "A";
        TypeInferenceEvaluator.CallPredict "A" "tc-1";
        TypeInferenceEvaluator.CallDispose "A";
        TypeInferenceEvaluator.CallInitialize "B";
        TypeInferenceEvaluator.CallPredict "B" "tc-1";
        TypeInferenceEvaluator.CallDispose "B"].
Proof.
  split; [eexists; split; reflexivity | reflexivity].
Qed.

Lemma evaluateApproach_pools_test_cases_witness :
  In (EvaluationMetrics.mkMatch Examples.xAsString Examples.xString)
     (EvaluationMetrics.getMatches
        (concat [[]; [Examples.xAsString]])
        (concat (map TestCase.groundTruth [Examples.testCase2; Examples.testCase1]))).
Proof.
  destruct (evaluateApproach_pools_test_cases Examples.clock
              (Examples.registry [Examples.approachB]) "B" Examples.approachB
              [Examples.testCase2; Examples.testCase1] JsMap.empty Examples.start
              tt tt tt [[]; [Examples.xAsString]]
              eq_refl eq_refl eq_refl eq_refl)
    as (_ & Hcross).
  destruct (Hcross 1%nat 0%nat [Examples.xAsString] Examples.testCase2
              Examples.xAsString Examples.xString)
    as (g0 & _ & Hin & _ & Hfirst);
    [reflexivity | left; reflexivity | reflexivity | left; reflexivity
    | reflexivity | ].
  rewrite (Hfirst [] [Examples.xNumber]) in Hin.
  - exact Hin.
  - reflexivity.
  - intros g' [].
Defined.

(** C9, as stated, fails: the prediction made for the first test case has
    the identifier, line and column of an entry of the second test case, and
    is matched to the entry of its own test case, which comes first in the
    pool. *)
Lemma evaluateApproach_cross_match_shadowed :
  Spec.predictEach Examples.approachB [Examples.testCase1; Examples.testCase2] tt
  = (Ok [[Examples.xAsString]; []], tt)
  /\ TestCase.groundTruth Examples.testCase2 = [Examples.xString]
  /\ EvaluationMetrics.sameIdentity Examples.xAsString Examples.xString = true
  /\ EvaluationMetrics.getMatches
       (concat [[Examples.xAsString]; []])
       (concat (map TestCase.groundTruth [Examples.testCase1; Examples.testCase2]))
     = [EvaluationMetrics.mkMatch Examples.xAsString Examples.xNumber]
  /\ ~ In (EvaluationMetrics.mkMatch Examples.xAsString Examples.xString)
          (EvaluationMetrics.getMatches
             (concat [[Examples.xAsString]; []])
             (concat (map TestCase.groundTruth
                        [Examples.testCase1; Examples.testCase2])))
  /\ (exists result,
       fst (TypeInferenceEvaluator.evaluateApproach unit Examples.clock
              (Examples.registry [Examples.approachB]) "B"
              [Examples.testCase1; Examples.testCase2] JsMap.empty Examples.start)
       = Ok result
       /\ EvaluationResult.totalPredictions result = 1%nat
       /\ EvaluationResult.correctPredictions result = 0%nat)
  /\ ~ (forall (pss : list (list TypePrediction.t))
               (gts : list (list GroundTruthType.t)) i j ps gs p g,
          nth_error pss i = Some ps -> In p ps ->
          nth_error gts j = Some gs -> In g gs ->
          i <> j ->
          EvaluationMetrics.sameIdentity p g = true ->
          In (EvaluationMetrics.mkMatch p g)
             (EvaluationMetrics.getMatches (concat pss) (concat gts))).
Proof.
  split; [reflexivity|]. split; [reflexivity|]. split; [reflexivity|].
  split; [reflexivity|]. split; [|split].
  - intros [H|[]]. discriminate H.
  - eexists. split; [reflexivity|]. split; reflexivity.
  - intros H.
    specialize (H [[Examples.xAsString]; []]
                  [[Examples.xNumber]; [Examples.xString]]
                  0%nat 1%nat [Examples.xAsString] [Examples.xString]
                  Examples.xAsString Examples.xString
                  eq_refl (or_introl eq_refl) eq_refl (or_introl eq_refl)).
    destruct H as [H|[]]; [discriminate | reflexivity | discriminate H].
Qed.

(** ** Determinism of the random baseline *)

Section PredictFacts.
Import RandomTypeInferenceApproach Spec.
Context {Gen : Type} (random : Gen -> Qc * Gen).
Context (traverse : string -> string -> list VisitEvent * bool).

(** Every draw lies in the unit interval [0,1). *)
Hypothesis random_unit :
  forall g, (0 <= fst (random g))%Qc /\ (fst (random g) < 1)%Qc.

Lemma Qc_ltb_lt (x y : Qc) : Qc_ltb x y = true <-> (x < y)%Qc.
Proof.
  unfold Qc_ltb. rewrite Qclt_alt.
  destruct (x ?= y)%Qc; split; intros H; try discriminate; reflexivity.
Qed.

Lemma nextBoolean_never (g : Gen) :
  Prng.nextBoolean Gen random 0%Qc g = (false, snd (random g)).
Proof.
  unfold Prng.nextBoolean. destruct (random_unit g) as [Hlo _].
  destruct (random g) as [u g']. simpl in *. f_equal.
  destruct (Qc_ltb u 0%Qc) eqn:E; auto.
  apply Qc_ltb_lt in E. now apply Qcle_not_lt in Hlo.
Qed.

Lemma nextBoolean_always (g : Gen) :
  Prng.nextBoolean Gen random 1%Qc g = (true, snd (random g)).
Proof.
  unfold Prng.nextBoolean. destruct (random_unit g) as [_ Hhi].
  destruct (random g) as [u g']. simpl in *. f_equal.
  now apply Qc_ltb_lt.
Qed.

Lemma pickOne_single {A} (x : A) (g : Gen) :
  Prng.pickOne Gen random [x] g = (Some x, snd (random g)).
Proof.
  unfold Prng.pickOne. destruct (random_unit g) as [Hlo Hhi].
  destruct (random g) as [u g']. cbn [fst snd length] in *. f_equal.
  change (num_of_nat 1) with 1%Qc. rewrite Qcmult_1_r.
  assert (Hfloor : (Qfloor u <= 0)%Z).
  { assert (H : (inject_Z (Qfloor u) < inject_Z 1)%Q).
    { eapply Qle_lt_trans; [apply Qfloor_le | exact Hhi]. }
    rewrite <- Zlt_Qlt in H. lia. }
  destruct (Qfloor u); try lia; reflexivity.
Qed.

Lemma handle_deterministic (ev : VisitEvent) (v : RandomTypeVisitor) (g1 g2 : Gen) :
  deterministic v ->
  fst (handle Gen random ev v g1) = fst (handle Gen random ev v g2).
Proof.
  intros Hdet. destruct ev as [path|[id|]| |[id|]| |[key|]| | | |id|]; try reflexivity.
  simpl. unfold onIdentifier. destruct (skipped path); [reflexivity|].
  unfold _shouldMakePrediction, _getRandomType.
  destruct Hdet as [Hp|[Hp [type Ht]]]; rewrite Hp.
  - now rewrite !nextBoolean_never.
  - rewrite !nextBoolean_always, Ht, !pickOne_single. reflexivity.
Qed.

Lemma handle_configuration (ev : VisitEvent) (v v' : RandomTypeVisitor) (g g' : Gen) :
  handle Gen random ev v g = (Ok v', g') ->
  _randomTypeProbability v' = _randomTypeProbability v
  /\ _availableTypes v' = _availableTypes v.
Proof.
  destruct ev as [path|[id|]| |[id|]| |[key|]| | | |id|]; simpl;
    try (intros [= <- _]; auto).
  unfold onIdentifier. destruct (skipped path); [intros [= <- _]; auto|].
  destruct (_shouldMakePrediction Gen random v g) as [[|] g1];
    [|intros [= <- _]; auto].
  destruct (_getRandomType Gen random v g1) as [[type|] g2];
    [intros [= <- _]; auto | discriminate].
Qed.

Lemma runCallbacks_deterministic (events : list VisitEvent)
    (v : RandomTypeVisitor) (g1 g2 : Gen) :
  deterministic v ->
  fst (runCallbacks Gen random events v g1)
  = fst (runCallbacks Gen random events v g2).
Proof.
  revert v g1 g2. induction events as [|ev events IH]; intros v g1 g2 Hdet;
    [reflexivity|].
  simpl. pose proof (handle_deterministic ev v g1 g2 Hdet) as Hsame.
  destruct (handle Gen random ev v g1) as [[v1|e1] g1'] eqn:E1;
    destruct (handle Gen random ev v g2) as [[v2|e2] g2'] eqn:E2;
    simpl in Hsame; try discriminate.
  - injection Hsame as <-. apply IH.
    apply handle_configuration in E1 as [Hp Ht].
    unfold deterministic. now rewrite Hp, Ht.
  - reflexivity.
Qed.

(** C8.  With [randomTypeProbability = 0], or with
    [randomTypeProbability = 1] and a single available type, the predictions
    of [predict] for a source text do not depend on the state of the
    generator; so a second run, which starts with the generator as the first
    run left it, returns the predictions of the first. *)
Theorem predict_deterministic (a : t) (sourceCode : string)
    (filePath : option string) :
  randomTypeProbability a = 0%Qc
  \/ (randomTypeProbability a = 1%Qc /\ exists type, availableTypes a = [type]) ->
  (forall g1 g2,
      fst (fst (predict Gen random traverse a sourceCode filePath g1))
      = fst (fst (predict Gen random traverse a sourceCode filePath g2)))
  /\ (forall g,
        let first := predict Gen random traverse a sourceCode filePath g in
        let second := predict Gen random traverse a sourceCode filePath (snd first) in
        fst (fst second) = fst (fst first)).
Proof.
  intros Hdet.
  assert (H : forall g1 g2,
             fst (fst (predict Gen random traverse a sourceCode filePath g1))
             = fst (fst (predict Gen random traverse a sourceCode filePath g2))).
  { intros g1 g2. unfold predict.
    destruct (traverse sourceCode _) as [events walkThrows].
    pose proof (runCallbacks_deterministic events
                  (newRandomTypeVisitor (availableTypes a) (randomTypeProbability a))
                  g1 g2 Hdet) as Hrun.
    destruct (runCallbacks Gen random events _ g1) as [[v1 t1] g1'].
    destruct (runCallbacks Gen random events _ g2) as [[v2 t2] g2'].
    simpl in *. congruence. }
  split; [exact H | intros g; apply H].
Qed.

End PredictFacts.

Lemma alternating_unit (g : nat) :
  (0 <= fst (Examples.alternating g))%Qc /\ (fst (Examples.alternating g) < 1)%Qc.
Proof.
  unfold Examples.alternating. simpl. destruct (Nat.even g); split; reflexivity || discriminate.
Qed.

Lemma predict_deterministic_witness :
  fst (fst (RandomTypeInferenceApproach.predict nat Examples.alternating
              Examples.walk Examples.onlyNumber "const count = 1;" None 0%nat))
  = fst (fst (RandomTypeInferenceApproach.predict nat Examples.alternating
                Examples.walk Examples.onlyNumber "const count = 1;" None 1%nat)).
Proof.
  apply (predict_deterministic Examples.alternating Examples.walk
           alternating_unit Examples.onlyNumber "const count = 1;" None).
  right. split; [reflexivity | now exists "number"].
Defined.

(** With a probability strictly between [0] and [1] the predictions do
    depend on the generator. *)
Example predict_depends_on_generator :
  fst (fst (RandomTypeInferenceApproach.predict nat Examples.alternating
              Examples.walk Examples.halfTheTime "const count = 1;" None 0%nat))
  <> fst (fst (RandomTypeInferenceApproach.predict nat Examples.alternating
                 Examples.walk Examples.halfTheTime "const count = 1;" None 1%nat)).
Proof. discriminate. Qed.
(** ** More on the matcher and the metrics *)

Section MatcherOrder.
Import EvaluationMetrics Spec.

Lemma matchesOf_prediction (gt : list GroundTruthType.t) (p : TypePrediction.t) :
  map Match.prediction (matchesOf gt p) = if matched gt p then [p] else [].
Proof.
  unfold matchesOf, matched. induction gt as [|g gt IH]; simpl; auto.
  destruct (sameIdentity p g); simpl; auto.
Qed.

(** X1.  The matches come in the order of the predictions, one for each
    prediction that has a ground-truth entry of its identifier and position;
    each match records its prediction's type, its entry's type and whether
    the two are equal. *)
Theorem getMatches_in_prediction_order
    (preds : list TypePrediction.t) (gt : list GroundTruthType.t) :
  map Match.prediction (getMatches preds gt) = filter (matched gt) preds
  /\ Forall
       (fun m =>
          In (Match.groundTruth m) gt
          /\ identityOfTruth (Match.groundTruth m) = identityOf (Match.prediction m)
          /\ Match.predictedType m = TypePrediction.predictedType (Match.prediction m)
          /\ Match.actualType m = GroundTruthType.actualType (Match.groundTruth m)
          /\ Match.correct m
             = String.eqb (Match.predictedType m) (Match.actualType m))
       (getMatches preds gt).
Proof.
  split.
  - rewrite getMatches_flat_map. induction preds as [|p preds IH]; simpl; auto.
    rewrite map_app, IH, matchesOf_prediction.
    destruct (matched gt p); reflexivity.
  - apply Forall_forall. intros m Hm.
    apply In_getMatches in Hm as (_ & Hg & Hs & Hm).
    apply sameIdentity_iff in Hs. rewrite Hm. simpl. auto.
Qed.

Lemma getMatches_no_truth (preds : list TypePrediction.t) : getMatches preds [] = [].
Proof.
  rewrite getMatches_flat_map. induction preds as [|p preds IH]; simpl; auto.
Qed.

(** X2.  Matching is done prediction by prediction: the matches of two lists of
    predictions put one after the other are the matches of the first
    followed by those of the second.  Without predictions, or without ground
    truth, there is no match. *)
Theorem getMatches_app
    (preds1 preds2 : list TypePrediction.t) (gt : list GroundTruthType.t) :
  getMatches (preds1 ++ preds2) gt = getMatches preds1 gt ++ getMatches preds2 gt
  /\ getMatches [] gt = []
  /\ getMatches preds1 [] = [].
Proof.
  split; [|split; [reflexivity | apply getMatches_no_truth]].
  rewrite !getMatches_flat_map. apply flat_map_app.
Qed.

End MatcherOrder.

Section PrecisionFacts.
Import EvaluationMetrics Spec.

Lemma groupByPredictedType_snoc (ms : list Match.t) (m : Match.t) :
  groupByPredictedType (ms ++ [m])
  = let groups := groupByPredictedType ms in
    let groups :=
      if JsMap.has (Match.predictedType m) groups then groups
      else JsMap.set (Match.predictedType m) [] groups in
    match JsMap.get (Match.predictedType m) groups with
    | Some group => JsMap.set (Match.predictedType m) (group ++ [m]) groups
    | None => groups
    end.
Proof. unfold groupByPredictedType. rewrite fold_left_app. reflexivity. Qed.

Lemma predictedAs_snoc (T : string) (ms : list Match.t) (m : Match.t) :
  predictedAs T (ms ++ [m])
  = predictedAs T ms ++ (if String.eqb (Match.predictedType m) T then [m] else []).
Proof. unfold predictedAs. rewrite filter_app. reflexivity. Qed.

(** The group stored under a type is the list of the matches predicted as
    that type, in order; a type without such a match has no group. *)
Lemma groupByPredictedType_get (T : string) (ms : list Match.t) :
  JsMap.get T (groupByPredictedType ms)
  = match predictedAs T ms with
    | [] => None
    | group => Some group
    end.
Proof.
  induction ms as [|m ms IH] using rev_ind; [reflexivity|].
  rewrite groupByPredictedType_snoc, predictedAs_snoc. cbv zeta.
  set (G := groupByPredictedType ms) in *.
  set (k := Match.predictedType m).
  destruct (String.eqb k T) eqn:E.
  - apply String.eqb_eq in E. subst T. unfold JsMap.has. rewrite IH.
    destruct (predictedAs k ms) as [|x l].
    + rewrite JsMap_get_set_same, JsMap_get_set_same. reflexivity.
    + rewrite IH. rewrite JsMap_get_set_same. reflexivity.
  - apply String.eqb_neq in E. rewrite app_nil_r, <- IH.
    unfold JsMap.has. destruct (JsMap.get k G) as [g|] eqn:Ek.
    + rewrite Ek. now apply JsMap_get_set_other.
    + rewrite JsMap_get_set_same.
      rewrite !JsMap_get_set_other by assumption. reflexivity.
Qed.

Lemma groupByPredictedType_wf (ms : list Match.t) :
  JsMap.wf (groupByPredictedType ms).
Proof.
  induction ms as [|m ms IH] using rev_ind; [constructor|].
  rewrite groupByPredictedType_snoc. cbv zeta.
  set (G := groupByPredictedType ms) in *.
  assert (Hwf : JsMap.wf
                  (if JsMap.has (Match.predictedType m) G then G
                   else JsMap.set (Match.predictedType m) [] G)).
  { destruct (JsMap.has _ G); auto. now apply JsMap_wf_set. }
  destruct (JsMap.get _ _); auto. now apply JsMap_wf_set.
Qed.

Lemma calculatePrecisionByType_get
    (preds : list TypePrediction.t) (gt : list GroundTruthType.t) (T : string) :
  JsMap.get T (calculatePrecisionByType preds gt)
  = match predictedAs T (getMatches preds gt) with
    | [] => None
    | group =>
        Some (ratio (length (filter Match.correct group)) (length group))
    end.
Proof.
  unfold calculatePrecisionByType, JsMap.entries.
  rewrite (JsMap_get_fold_entries
             (fun (_ : string) typeMatches =>
                if (0 <? length typeMatches)%nat
                then (num_of_nat (length (filter Match.correct typeMatches))
                      / num_of_nat (length typeMatches))%Qc
                else 0%Qc))
    by apply groupByPredictedType_wf.
  rewrite groupByPredictedType_get.
  destruct (predictedAs T (getMatches preds gt)); reflexivity.
Qed.

(** X3.  [calculatePrecisionByType] has an entry exactly for the types some match
    was predicted as: (correct matches predicted as [T]) / (matches predicted
    as [T]), a number between [0] and [1]. *)
Theorem calculatePrecisionByType_exact
    (preds : list TypePrediction.t) (gt : list GroundTruthType.t) (T : string) :
  let group := predictedAs T (getMatches preds gt) in
  let precision := ratio (length (filter Match.correct group)) (length group) in
  JsMap.get T (calculatePrecisionByType preds gt)
  = match group with
    | [] => None
    | _ => Some precision
    end
  /\ isScore precision.
Proof.
  intros group precision. split.
  - rewrite calculatePrecisionByType_get. fold group.
    unfold precision. destruct group; reflexivity.
  - apply ratio_bounds. apply filter_length_le.
Qed.

End PrecisionFacts.

Section RecallFacts.
Import EvaluationMetrics Spec.

Lemma JsMap_get_In {V} (m : JsMap.t V) (k : string) (v : V) :
  JsMap.get k m = Some v -> In (k, v) m.
Proof.
  induction m as [|[k' v'] m IH]; simpl; [discriminate|].
  destruct (String.eqb k' k) eqn:E.
  - apply String.eqb_eq in E. intros [= ->]. subst. now left.
  - intros H. right. now apply IH.
Qed.

Lemma JsMap_In_get {V} (m : JsMap.t V) (k : string) (v : V) :
  JsMap.wf m -> In (k, v) m -> JsMap.get k m = Some v.
Proof.
  induction m as [|[k' v'] m IH]; simpl; intros Hwf Hin; [destruct Hin|].
  inversion Hwf as [|? ? Hnotin Hwf']; subst.
  destruct Hin as [[= -> ->]|Hin].
  - now rewrite String.eqb_refl.
  - destruct (String.eqb k' k) eqn:E.
    + apply String.eqb_eq in E. subst k'. exfalso. apply Hnotin.
      change k with (fst (k, v)). now apply in_map.
    + now apply IH.
Qed.

Lemma JsMap_Forall_set {V} (P : string * V -> Prop) (m : JsMap.t V) k v :
  Forall P m -> P (k, v) -> Forall P (JsMap.set k v m).
Proof.
  intros Hm Hkv. induction m as [|[k' v'] m IH]; simpl.
  - now constructor.
  - inversion Hm; subst. destruct (String.eqb k' k) eqn:E.
    + apply String.eqb_eq in E. subst k'. now constructor.
    + constructor; auto.
Qed.

(** An entry written for every entry of a map: a property of all that was
    written holds of all the result. *)
Lemma JsMap_Forall_fold_entries {A B} (P : string * B -> Prop)
    (h : string -> A -> B) (l : JsMap.t A) (acc : JsMap.t B) :
  Forall P acc -> (forall k v, In (k, v) l -> P (k, h k v)) ->
  Forall P (fold_left (fun m '(k, v) => JsMap.set k (h k v) m) l acc).
Proof.
  revert acc. induction l as [|[k v] l IH]; intros acc Hacc Hl; simpl; auto.
  apply IH.
  - apply JsMap_Forall_set; auto. apply Hl. now left.
  - intros k' v' Hin. apply Hl. now right.
Qed.

Lemma JsMap_Forall_fold_set {B} (P : string * B -> Prop)
    (h : string -> B) (l : list string) (acc : JsMap.t B) :
  Forall P acc -> (forall k, In k l -> P (k, h k)) ->
  Forall P (fold_left (fun m k => JsMap.set k (h k) m) l acc).
Proof.
  revert acc. induction l as [|k l IH]; intros acc Hacc Hl; simpl; auto.
  apply IH.
  - apply JsMap_Forall_set; auto. apply Hl. now left.
  - intros k' Hin. apply Hl. now right.
Qed.

Lemma matchesOf_cons (g : GroundTruthType.t) (gt : list GroundTruthType.t)
    (p : TypePrediction.t) :
  matchesOf (g :: gt) p
  = if sameIdentity p g then [mkMatch p g] else matchesOf gt p.
Proof. unfold matchesOf. simpl. now destruct (sameIdentity p g). Qed.

(** The matches against [g :: gt]: those of the predictions that coincide
    with [g], and those of the other predictions against [gt]. *)
Lemma matches_cons_count (f : Match.t -> bool) (g : GroundTruthType.t)
    (gt : list GroundTruthType.t) (preds : list TypePrediction.t) :
  length (filter f (flat_map (matchesOf (g :: gt)) preds))
  = (length (filter f (map (fun p => mkMatch p g)
                         (filter (fun p => sameIdentity p g) preds)))
     + length (filter f (flat_map (matchesOf gt)
                           (filter (fun p => negb (sameIdentity p g)) preds))))%nat.
Proof.
  induction preds as [|p preds IH]; simpl; auto.
  rewrite filter_app, length_app, IH, matchesOf_cons.
  destruct (sameIdentity p g); simpl.
  - destruct (f (mkMatch p g)); simpl; lia.
  - rewrite filter_app, length_app. lia.
Qed.

Lemma coinciding_at_most_one (g : GroundTruthType.t) (preds : list TypePrediction.t) :
  NoDup (map identityOf preds) ->
  (length (filter (fun p => sameIdentity p g) preds) <= 1)%nat.
Proof.
  induction preds as [|p preds IH]; simpl; intros Hnd; [lia|].
  inversion Hnd as [|? ? Hnotin Hnd']; subst.
  destruct (sameIdentity p g) eqn:E; [|now apply IH].
  simpl. enough (filter (fun p => sameIdentity p g) preds = []) as -> by (simpl; lia).
  destruct (filter _ preds) as [|q qs] eqn:F; auto. exfalso.
  assert (Hq : In q (filter (fun p => sameIdentity p g) preds))
    by (rewrite F; now left).
  apply filter_In in Hq as [Hin Hq].
  apply sameIdentity_iff in E, Hq.
  apply Hnotin. rewrite <- E, Hq. now apply in_map.
Qed.

Lemma NoDup_map_filter {A B} (f : A -> B) (h : A -> bool) (l : list A) :
  NoDup (map f l) -> NoDup (map f (filter h l)).
Proof.
  induction l as [|x l IH]; simpl; intros Hnd; auto.
  inversion Hnd as [|? ? Hnotin Hnd']; subst.
  destruct (h x); simpl; auto. constructor; auto.
  intros Hin. apply Hnotin. apply in_map_iff in Hin as (y & Hy & Hin).
  apply filter_In in Hin as [Hin _]. rewrite <- Hy. now apply in_map.
Qed.

(** With predictions of pairwise different identifier and position, the
    correct matches of an actual type are no more than the ground-truth
    entries of that type. *)
Lemma correctOfType_le (T : string) (gt : list GroundTruthType.t)
    (preds : list TypePrediction.t) :
  NoDup (map identityOf preds) ->
  (length (filter (correctOfActual T) (getMatches preds gt))
   <= length (ofActualType T gt))%nat.
Proof.
  rewrite getMatches_flat_map. revert preds.
  induction gt as [|g gt IH]; intros preds Hnd.
  - assert (E : flat_map (matchesOf []) preds = []).
    { clear Hnd. induction preds as [|p preds IHp]; simpl; auto. }
    rewrite E. simpl. lia.
  - rewrite matches_cons_count.
    specialize (IH (filter (fun p => negb (sameIdentity p g)) preds)
                  (NoDup_map_filter _ _ _ Hnd)).
    pose proof (coinciding_at_most_one g preds Hnd) as Hone.
    assert (Hfirst :
      (length (filter (correctOfActual T)
                 (map (fun p => mkMatch p g)
                    (filter (fun p => sameIdentity p g) preds)))
       <= if String.eqb (GroundTruthType.actualType g) T then 1 else 0)%nat).
    { destruct (String.eqb (GroundTruthType.actualType g) T) eqn:E.
      - etransitivity; [apply filter_length_le|]. now rewrite length_map.
      - enough (H : forall l,
                   filter (correctOfActual T) (map (fun p => mkMatch p g) l) = [])
          by (rewrite H; simpl; lia).
        intros l. induction l as [|p l IHl]; simpl; auto.
        unfold correctOfActual at 1. simpl. rewrite E, andb_false_r. exact IHl. }
    unfold ofActualType in *. simpl.
    destruct (String.eqb (GroundTruthType.actualType g) T); simpl; lia.
Qed.

(** X4.  The recall of a type can only exceed [1] through predictions that share
    identifier, line and column: when no two predictions do, every entry of
    [calculateRecallByType] lies between [0] and [1]. *)
Theorem calculateRecallByType_scores
    (preds : list TypePrediction.t) (gt : list GroundTruthType.t) :
  NoDup (map identityOf preds) ->
  scores (calculateRecallByType preds gt).
Proof.
  intros Hnd. unfold scores, calculateRecallByType, JsMap.entries.
  apply (JsMap_Forall_fold_entries
           (fun kv => isScore (snd kv))
           (fun type n =>
              if (0 <? n)%nat
              then (num_of_nat
                      (length (filter (correctOfActual type) (getMatches preds gt)))
                    / num_of_nat n)%Qc
              else 0%Qc)); [constructor|].
  intros T n Hin. simpl.
  apply JsMap_In_get in Hin; [|apply groupByActualType_wf].
  rewrite groupByActualType_get in Hin.
  pose proof (correctOfType_le T gt preds Hnd) as Hle.
  destruct (length (ofActualType T gt)) as [|k] eqn:Ek; [discriminate|].
  injection Hin as <-.
  apply (ratio_bounds _ (S k)). exact Hle.
Qed.

Lemma calculateRecallByType_scores_witness :
  Spec.scores
    (EvaluationMetrics.calculateRecallByType
       [Examples.countAsNumber; Examples.countElsewhere]
       [Examples.countTruth; Examples.messageTruth]).
Proof.
  apply calculateRecallByType_scores.
  simpl. repeat constructor; simpl.
  - intros [H|[]]. discriminate H.
  - intros [].
Defined.

(** Two predictions of one identifier and position, both right, count twice
    against the one ground-truth entry: the recall of its type is [2]. *)
Example calculateRecallByType_above_one :
  JsMap.get "number"
    (EvaluationMetrics.calculateRecallByType
       [Examples.countAsNumber; Examples.countAsNumber] [Examples.countTruth])
  = Some (Q2Qc 2).
Proof. vm_compute. apply f_equal. apply Qc_is_canon. reflexivity. Qed.

(** X5.  The key sets of the two mappings: precision has an entry for the types
    that some matched prediction predicts, recall for the types that some
    ground-truth entry has, matched or not. *)
Theorem metric_keys
    (preds : list TypePrediction.t) (gt : list GroundTruthType.t) (T : string) :
  (In T (JsMap.keys (calculatePrecisionByType preds gt))
   <-> In T (map Match.predictedType (getMatches preds gt)))
  /\ (In T (JsMap.keys (calculateRecallByType preds gt))
      <-> In T (map GroundTruthType.actualType gt)).
Proof.
  split.
  - rewrite <- JsMap_get_In_keys, calculatePrecisionByType_get.
    split.
    + destruct (predictedAs T (getMatches preds gt)) as [|m l] eqn:E;
        [congruence|]. intros _.
      assert (Hm : In m (predictedAs T (getMatches preds gt)))
        by (rewrite E; now left).
      apply filter_In in Hm as [Hm Ht]. apply String.eqb_eq in Ht.
      rewrite <- Ht. now apply in_map.
    + intros Hin. apply in_map_iff in Hin as (m & Ht & Hm).
      assert (Hm' : In m (predictedAs T (getMatches preds gt))).
      { apply filter_In. split; auto. now apply String.eqb_eq. }
      destruct (predictedAs T (getMatches preds gt)); [destruct Hm' | congruence].
  - rewrite <- JsMap_get_In_keys.
    unfold calculateRecallByType, JsMap.entries.
    rewrite (JsMap_get_fold_entries
               (fun type n =>
                  if (0 <? n)%nat
                  then (num_of_nat
                          (length (filter (correctOfActual type) (getMatches preds gt)))
                        / num_of_nat n)%Qc
                  else 0%Qc))
      by apply groupByActualType_wf.
    rewrite groupByActualType_get. simpl. split.
    + destruct (length (ofActualType T gt)) eqn:E; [congruence|]. intros _.
      destruct (ofActualType T gt) as [|g l] eqn:F; [discriminate|].
      assert (Hg : In g (ofActualType T gt)) by (rewrite F; now left).
      apply filter_In in Hg as [Hg Ht]. apply String.eqb_eq in Ht.
      rewrite <- Ht. now apply in_map.
    + intros Hin. apply ofActualType_present in Hin.
      destruct (length (ofActualType T gt)); [lia | congruence].
Qed.

End RecallFacts.

Section ScoreFacts.
Import EvaluationMetrics Spec.

Lemma isScore_0 : isScore 0%Qc.
Proof. split; [apply Qcle_refl | now unfold Qcle]. Qed.

Lemma Qcmult_nonneg (x y : Qc) : (0 <= x)%Qc -> (0 <= y)%Qc -> (0 <= x * y)%Qc.
Proof.
  intros Hx Hy. rewrite <- (Qcmult_0_l y). now apply Qcmult_le_compat_r.
Qed.

Lemma Qcplus_nonneg (x y : Qc) : (0 <= x)%Qc -> (0 <= y)%Qc -> (0 <= x + y)%Qc.
Proof.
  intros Hx Hy. rewrite <- (Qcplus_0_l 0%Qc). now apply Qcplus_le_compat.
Qed.

Lemma f1Of_symmetric (p r : Qc) : f1Of p r = f1Of r p.
Proof.
  unfold f1Of. rewrite (Qcplus_comm r p).
  destruct (Qc_eq_dec (p + r)%Qc 0%Qc); auto.
  unfold Qcdiv. f_equal. ring.
Qed.

(** The harmonic mean of two scores is a score. *)
Lemma f1Of_score (p r : Qc) : isScore p -> isScore r -> isScore (f1Of p r).
Proof.
  intros [Hp0 Hp1] [Hr0 Hr1]. unfold f1Of.
  destruct (Qc_eq_dec (p + r)%Qc 0%Qc) as [E|E]; [apply isScore_0|].
  assert (Hsum : (0 <= p + r)%Qc) by now apply Qcplus_nonneg.
  assert (Hpos : (0 < p + r)%Qc).
  { destruct (Qcle_lt_or_eq _ _ Hsum) as [H|H]; auto. now symmetry in H. }
  split.
  - unfold Qcdiv. apply Qcmult_nonneg.
    + apply Qcmult_nonneg; auto. apply Qcmult_nonneg; auto. now unfold Qcle.
    + apply Qcinv_nonneg. exact Hsum.
  - apply (Qcmult_lt_0_le_reg_r _ _ (p + r)%Qc Hpos).
    rewrite Qcmult_1_l.
    unfold Qcdiv. rewrite <- Qcmult_assoc, (Qcmult_inv_l _ E), Qcmult_1_r.
    replace (Q2Qc 2) with (1 + 1)%Qc by (apply Qc_is_canon; reflexivity).
    replace ((1 + 1) * p * r)%Qc with (r * p + p * r)%Qc by ring.
    apply Qcplus_le_compat.
    + rewrite <- (Qcmult_1_l p) at 2. now apply Qcmult_le_compat_r.
    + rewrite <- (Qcmult_1_l r) at 2. now apply Qcmult_le_compat_r.
Qed.

Lemma scores_get (m : JsMap.t Qc) (T : string) :
  scores m -> isScore (num_or (JsMap.get T m) 0%Qc).
Proof.
  intros Hm. unfold num_or. destruct (JsMap.get T m) as [v|] eqn:E;
    [|apply isScore_0].
  destruct (Qc_eq_dec v 0%Qc); [apply isScore_0|].
  apply JsMap_get_In in E. unfold scores in Hm.
  rewrite Forall_forall in Hm. apply (Hm (T, v) E).
Qed.

(** X6.  When every precision and every recall is a score, so is every F1. *)
Theorem calculateF1ScoreByType_scores (precisionByType recallByType : JsMap.t Qc) :
  scores precisionByType -> scores recallByType ->
  scores (calculateF1ScoreByType precisionByType recallByType).
Proof.
  intros HP HR. unfold scores, calculateF1ScoreByType.
  apply (JsMap_Forall_fold_set
           (fun kv => isScore (snd kv))
           (fun type =>
              f1Of (num_or (JsMap.get type precisionByType) 0%Qc)
                   (num_or (JsMap.get type recallByType) 0%Qc)));
    [constructor|].
  intros T _. simpl. apply f1Of_score; now apply scores_get.
Qed.

Lemma calculateF1ScoreByType_scores_witness :
  Spec.scores
    (EvaluationMetrics.calculateF1ScoreByType
       [("number", 1%Qc)] [("number", 1%Qc); ("string", 0%Qc)]).
Proof.
  apply calculateF1ScoreByType_scores.
  - repeat constructor; simpl; discriminate.
  - repeat constructor; simpl; discriminate.
Defined.

(** X7.  F1 does not tell precision from recall: exchanging the two mappings
    leaves the F1 of every type as it was. *)
Theorem calculateF1ScoreByType_symmetric
    (precisionByType recallByType : JsMap.t Qc) (T : string) :
  JsMap.get T (calculateF1ScoreByType precisionByType recallByType)
  = JsMap.get T (calculateF1ScoreByType recallByType precisionByType).
Proof.
  unfold calculateF1ScoreByType.
  rewrite (JsMap_get_fold_set
             (fun type =>
                f1Of (num_or (JsMap.get type precisionByType) 0%Qc)
                     (num_or (JsMap.get type recallByType) 0%Qc))).
  rewrite (JsMap_get_fold_set
             (fun type =>
                f1Of (num_or (JsMap.get type recallByType) 0%Qc)
                     (num_or (JsMap.get type precisionByType) 0%Qc))).
  rewrite f1Of_symmetric.
  destruct (in_dec string_dec T _) as [H1|H1];
    destruct (in_dec string_dec T _) as [H2|H2]; auto; exfalso.
  - apply H2. apply (proj2 (In_newSet _ _)).
    apply (proj1 (In_newSet _ _)) in H1.
    rewrite in_app_iff in *. tauto.
  - apply H1. apply (proj2 (In_newSet _ _)).
    apply (proj1 (In_newSet _ _)) in H2.
    rewrite in_app_iff in *. tauto.
Qed.

(** X8.  [generateEvaluationResult] counts matches, not predictions:
    [correctPredictions <= totalPredictions <= predictions.length], the total
    being the number of predictions that have a ground-truth entry of their
    identifier and position; and [accuracy] is the quotient of the two
    counts, [0] when the total is [0]. *)
Theorem generateEvaluationResult_counts (approachName : string)
    (preds : list TypePrediction.t) (gt : list GroundTruthType.t)
    (executionTime : Qc) :
  let result := generateEvaluationResult approachName preds gt executionTime in
  (EvaluationResult.correctPredictions result
   <= EvaluationResult.totalPredictions result)%nat
  /\ (EvaluationResult.totalPredictions result <= length preds)%nat
  /\ EvaluationResult.totalPredictions result = length (filter (matched gt) preds)
  /\ EvaluationResult.correctPredictions result
     = length (filter (correctlyMatched gt) preds)
  /\ EvaluationResult.accuracy result
     = ratio (EvaluationResult.correctPredictions result)
             (EvaluationResult.totalPredictions result).
Proof.
  cbv zeta. unfold generateEvaluationResult. simpl.
  split; [apply filter_length_le|].
  split; [rewrite getMatches_length; apply filter_length_le|].
  split; [apply getMatches_length|].
  split; [apply getMatches_correct_length|].
  unfold calculateAccuracy, ratio.
  destruct (length (getMatches preds gt)); reflexivity.
Qed.

Lemma filter_length_Permutation {A} (f : A -> bool) (l l' : list A) :
  Permutation l l' -> length (filter f l) = length (filter f l').
Proof.
  induction 1 as [|x l l' _ IH|x y l|l l' l'' _ IH1 _ IH2]; simpl; auto.
  - destruct (f x); simpl; auto.
  - destruct (f x), (f y); reflexivity.
  - congruence.
Qed.

(** X10.  The order of the predictions does not matter to the counts and to the
    accuracy. *)
Theorem calculateAccuracy_Permutation
    (preds preds' : list TypePrediction.t) (gt : list GroundTruthType.t) :
  Permutation preds preds' ->
  calculateAccuracy preds gt = calculateAccuracy preds' gt
  /\ length (getMatches preds gt) = length (getMatches preds' gt)
  /\ Permutation (getMatches preds gt) (getMatches preds' gt).
Proof.
  intros Hperm.
  assert (HP : Permutation (getMatches preds gt) (getMatches preds' gt)).
  { rewrite !getMatches_flat_map. now apply Permutation_flat_map. }
  split; [|split; [now apply Permutation_length | exact HP]].
  unfold calculateAccuracy.
  rewrite (filter_length_Permutation Match.correct _ _ HP).
  now rewrite (Permutation_length HP).
Qed.

Lemma calculateAccuracy_Permutation_witness :
  EvaluationMetrics.calculateAccuracy
    [Examples.countAsNumber; Examples.countAsString] [Examples.countTruth]
  = EvaluationMetrics.calculateAccuracy
      [Examples.countAsString; Examples.countAsNumber] [Examples.countTruth].
Proof.
  apply (calculateAccuracy_Permutation
           [Examples.countAsNumber; Examples.countAsString]
           [Examples.countAsString; Examples.countAsNumber]
           [Examples.countTruth]).
  apply perm_swap.
Defined.

End ScoreFacts.

Section NoInputFacts.
Import EvaluationMetrics Spec.

Lemma f1Of_0_l (r : Qc) : f1Of 0%Qc r = 0%Qc.
Proof.
  unfold f1Of. destruct (Qc_eq_dec (0 + r)%Qc 0%Qc); auto.
  unfold Qcdiv. rewrite Qcmult_0_r, !Qcmult_0_l. reflexivity.
Qed.

(** X9.  Empty input is no error and no division by zero.  Without predictions
    the accuracy is [0], the precision mapping is empty and every recall and
    every F1 is [0]; without ground truth the accuracy is [0] and the three
    mappings are empty, whatever the predictions. *)
Theorem generateEvaluationResult_no_input (approachName : string)
    (preds : list TypePrediction.t) (gt : list GroundTruthType.t)
    (executionTime : Qc) :
  (let result := generateEvaluationResult approachName [] gt executionTime in
   EvaluationResult.accuracy result = 0%Qc
   /\ EvaluationResult.totalPredictions result = 0%nat
   /\ EvaluationResult.precisionByType result = JsMap.empty
   /\ Forall (fun kv => snd kv = 0%Qc) (EvaluationResult.recallByType result)
   /\ Forall (fun kv => snd kv = 0%Qc) (EvaluationResult.f1ScoreByType result))
  /\ (let result := generateEvaluationResult approachName preds [] executionTime in
      EvaluationResult.accuracy result = 0%Qc
      /\ EvaluationResult.totalPredictions result = 0%nat
      /\ EvaluationResult.precisionByType result = JsMap.empty
      /\ EvaluationResult.recallByType result = JsMap.empty
      /\ EvaluationResult.f1ScoreByType result = JsMap.empty).
Proof.
  split.
  - cbv zeta. unfold generateEvaluationResult. simpl.
    split; [reflexivity|]. split; [reflexivity|]. split; [reflexivity|].
    assert (Hrecall :
      Forall (fun kv => snd kv = 0%Qc) (calculateRecallByType [] gt)).
    { unfold calculateRecallByType, JsMap.entries.
      apply (JsMap_Forall_fold_entries
               (fun kv => snd kv = 0%Qc)
               (fun type n =>
                  if (0 <? n)%nat
                  then (num_of_nat
                          (length (filter (correctOfActual type) (getMatches [] gt)))
                        / num_of_nat n)%Qc
                  else 0%Qc)); [constructor|].
      intros T n _. simpl. destruct (0 <? n)%nat; auto.
      unfold Qcdiv. apply Qcmult_0_l. }
    split; [exact Hrecall|].
    unfold calculateF1ScoreByType.
    apply (JsMap_Forall_fold_set
             (fun kv => snd kv = 0%Qc)
             (fun type =>
                f1Of (num_or (JsMap.get type (calculatePrecisionByType [] gt)) 0%Qc)
                     (num_or (JsMap.get type (calculateRecallByType [] gt)) 0%Qc)));
      [constructor|].
    intros T _. simpl. apply f1Of_0_l.
  - cbv zeta. unfold generateEvaluationResult. simpl.
    unfold calculateAccuracy, calculatePrecisionByType, calculateRecallByType.
    rewrite getMatches_no_truth. repeat split.
Qed.

End NoInputFacts.

(** ** More on the evaluator *)

Section LifecycleFacts.
Import TypeInferenceEvaluator Spec.
Context {W : Type} (now : W -> Z).
Implicit Types (a : Approach W) (s : State W) (tcs : list TestCase.t)
  (reg : JsMap.t (Approach W)).

(** X11.  Registration is by name: the approach registered last under a name is the
    one found there, the other names keep their approach, and a name that is
    registered again keeps its place among the registered names, which never
    hold a name twice. *)
Theorem registerApproach_lookup reg a :
  JsMap.get (name a) (registerApproach W reg a) = Some a
  /\ (forall n, n <> name a ->
        JsMap.get n (registerApproach W reg a) = JsMap.get n reg)
  /\ getRegisteredApproaches W (registerApproach W reg a)
     = (if JsMap.has (name a) reg then getRegisteredApproaches W reg
        else getRegisteredApproaches W reg ++ [name a])
  /\ (JsMap.wf reg -> JsMap.wf (registerApproach W reg a)).
Proof.
  unfold registerApproach, getRegisteredApproaches. repeat split.
  - apply JsMap_get_set_same.
  - intros n Hn. apply JsMap_get_set_other. congruence.
  - apply JsMap_keys_set.
  - apply JsMap_wf_set.
Qed.

(** X12.  [evaluateApproach] gives up early in two ways.  For a name that is not
    registered it throws before anything is logged or called.  When
    [initialize] rejects, that error is the outcome and the approach is left
    as it is: no [predict], and no [dispose] either. *)
Theorem evaluateApproach_early_failures
    reg approachName tcs (config : Config) s :
  (JsMap.get approachName reg = None ->
   evaluateApproach W now reg approachName tcs config s
   = (Err (notRegistered approachName), s))
  /\ (forall a e w1,
        JsMap.get approachName reg = Some a ->
        initialize a config (world s) = (Err e, w1) ->
        evaluateApproach W now reg approachName tcs config s
        = (Err e,
           {| world := w1;
              calls := calls s ++ [CallInitialize (name a)];
              console := console s ++ [LogEvaluating approachName] |})).
Proof.
  split.
  - intros Hnone. unfold evaluateApproach. now rewrite Hnone.
  - intros a e w1 Hreg Hinit.
    rewrite (evaluateApproach_run now reg approachName a tcs config s Hreg).
    cbv zeta. now rewrite Hinit.
Qed.

Lemma predictEach_all a tcs (w w2 : W) (pss : list (list TypePrediction.t)) :
  predictEach a tcs w = (Ok pss, w2) ->
  predictAttempts a tcs w = length tcs /\ length pss = length tcs.
Proof.
  revert w w2 pss. induction tcs as [|tc tcs IH]; intros w w2 pss; simpl.
  - intros [= <- _]. auto.
  - destruct (predict a (TestCase.sourceCode tc) (TestCase.id tc) w)
      as [[ps|e] w1]; [|discriminate].
    destruct (predictEach a tcs w1) as [[pss'|e] w2'] eqn:E; [|discriminate].
    intros [= <- _]. destruct (IH w1 w2' pss' E) as [H1 H2].
    simpl. rewrite H1, H2. auto.
Qed.

(** X13.  The life cycle of an evaluation in which every [predict] resolves: one
    [initialize], one [predict] per test case in the order of the test cases,
    one [dispose], and nothing else.  The result is what the metrics make of
    the pooled predictions, unless [dispose] rejects: then the evaluation
    fails with that error and the result is lost. *)
Theorem evaluateApproach_lifecycle
    reg approachName a tcs (config : Config) s (w1 w2 : W)
    (pss : list (list TypePrediction.t)) :
  JsMap.get approachName reg = Some a ->
  initialize a config (world s) = (Ok tt, w1) ->
  predictEach a tcs w1 = (Ok pss, w2) ->
  let run := evaluateApproach W now reg approachName tcs config s in
  let result :=
    EvaluationMetrics.generateEvaluationResult approachName
      (concat pss) (concat (map TestCase.groundTruth tcs))
      (Q2Qc (inject_Z (now w2 - now w1))) in
  calls (snd run)
  = calls s ++ [CallInitialize (name a)]
    ++ predictCalls (name a) tcs ++ [CallDispose (name a)]
  /\ console (snd run)
     = console s ++ [LogEvaluating approachName]
       ++ processingLogs tcs
       ++ [LogCompleted (EvaluationResult.accuracy result)]
  /\ world (snd run) = snd (dispose a w2)
  /\ fst run
     = match fst (dispose a w2) with
       | Ok _ => Ok result
       | Err e => Err e
       end.
Proof.
  intros Hreg Hinit Hpredict run result. unfold run.
  rewrite (evaluateApproach_run now reg approachName a tcs config s Hreg).
  cbv zeta. rewrite Hinit, Hpredict. cbn [fst snd world calls console].
  destruct (predictEach_all a tcs w1 w2 pss Hpredict) as [-> _].
  rewrite firstn_all, <- !app_assoc. auto.
Qed.

Lemma collect_wf (outcomes : list (string * Res EvaluationResult.t))
    (results : JsMap.t EvaluationResult.t) :
  JsMap.wf results -> JsMap.wf (collect outcomes results).
Proof.
  revert results. induction outcomes as [|[n o] outcomes IH]; intros results Hwf;
    auto.
  unfold collect. simpl. change (fold_left _ outcomes ?r) with (collect outcomes r).
  apply IH. destruct o; auto. now apply JsMap_wf_set.
Qed.

Lemma collect_keys (outcomes : list (string * Res EvaluationResult.t))
    (results : JsMap.t EvaluationResult.t) :
  NoDup (map fst outcomes) ->
  (forall n, In n (map fst outcomes) -> ~ In n (JsMap.keys results)) ->
  JsMap.keys (collect outcomes results) = JsMap.keys results ++ succeeded outcomes.
Proof.
  revert results. induction outcomes as [|[n o] outcomes IH];
    intros results Hnd Hfresh.
  - simpl. now rewrite app_nil_r.
  - inversion Hnd as [|? ? Hnotin Hnd']; subst.
    unfold collect. simpl. change (fold_left _ outcomes ?r) with (collect outcomes r).
    destruct o as [r|e].
    + rewrite IH; auto.
      * rewrite JsMap_keys_set. unfold JsMap.has.
        assert (Hn : JsMap.get n results = None).
        { apply JsMap_get_None_keys. apply Hfresh. now left. }
        rewrite Hn, <- app_assoc. reflexivity.
      * intros n' Hn'. rewrite JsMap_keys_set.
        assert (Hnot : ~ In n' (JsMap.keys results))
          by (apply Hfresh; now right).
        destruct (JsMap.has n results); auto.
        rewrite in_app_iff. intros [H|[H|[]]]; [contradiction|].
        subst n'. contradiction.
    + rewrite IH; auto. intros n' Hn'. apply Hfresh. now right.
Qed.

(** X14.  The mapping [evaluateAllApproaches] returns lists the approaches that
    succeeded in the order of their registration, those that failed left
    out. *)
Theorem evaluateAllApproaches_result_order
    reg tcs (configs : JsMap.t Config) s :
  JsMap.wf reg ->
  exists results,
    fst (evaluateAllApproaches W now reg tcs configs s) = Ok results
    /\ JsMap.keys results
       = succeeded (attempts W now reg tcs configs (JsMap.keys reg) s)
    /\ JsMap.wf results.
Proof.
  intros Hwf.
  exists (collect (attempts W now reg tcs configs (JsMap.keys reg) s) JsMap.empty).
  split; [apply evaluateEach_run|]. split.
  - rewrite collect_keys; auto.
    rewrite attempts_names. exact Hwf.
  - apply collect_wf. constructor.
Qed.

End LifecycleFacts.

Lemma registerApproach_lookup_witness :
  JsMap.get "B"
    (TypeInferenceEvaluator.registerApproach unit
       (Examples.registry [Examples.approachB]) Examples.approachA)
  = JsMap.get "B" (Examples.registry [Examples.approachB])
  /\ JsMap.wf
       (TypeInferenceEvaluator.registerApproach unit
          (Examples.registry [Examples.approachB]) Examples.approachA).
Proof.
  destruct (registerApproach_lookup
              (Examples.registry [Examples.approachB]) Examples.approachA)
    as (_ & Hother & _ & Hwf).
  split.
  - apply Hother. discriminate.
  - apply Hwf. unfold JsMap.wf. simpl. repeat constructor. intros [].
Defined.

Lemma evaluateApproach_early_failures_witness :
  TypeInferenceEvaluator.evaluateApproach unit Examples.clock
    (Examples.registry [Examples.approachN]) "Nonexistent"
    [Examples.testCase1] JsMap.empty Examples.start
  = (Err (TypeInferenceEvaluator.notRegistered "Nonexistent"), Examples.start)
  /\ TypeInferenceEvaluator.evaluateApproach unit Examples.clock
       (Examples.registry [Examples.approachN]) "N"
       [Examples.testCase1] JsMap.empty Examples.start
     = (Err (ErrorMsg "initialize failed"),
        {| TypeInferenceEvaluator.world := tt;
           TypeInferenceEvaluator.calls := [TypeInferenceEvaluator.CallInitialize "N"];
           TypeInferenceEvaluator.console := [TypeInferenceEvaluator.LogEvaluating "N"] |}).
Proof.
  split.
  - apply (evaluateApproach_early_failures Examples.clock
             (Examples.registry [Examples.approachN]) "Nonexistent"
             [Examples.testCase1] JsMap.empty Examples.start).
    reflexivity.
  - apply (proj2 (evaluateApproach_early_failures Examples.clock
                    (Examples.registry [Examples.approachN]) "N"
                    [Examples.testCase1] JsMap.empty Examples.start)
             Examples.approachN (ErrorMsg "initialize failed") tt);
      reflexivity.
Defined.

Lemma evaluateApproach_lifecycle_witness :
  TypeInferenceEvaluator.calls
    (snd (TypeInferenceEvaluator.evaluateApproach unit Examples.clock
            (Examples.registry [Examples.approachB]) "B"
            [Examples.testCase1; Examples.testCase2] JsMap.empty Examples.start))
  = [TypeInferenceEvaluator.CallInitialize "B";
     TypeInferenceEvaluator.CallPredict "B" "tc-1";
     TypeInferenceEvaluator.CallPredict "B" "tc-2";
     TypeInferenceEvaluator.CallDispose "B"].
Proof.
  apply (evaluateApproach_lifecycle Examples.clock
           (Examples.registry [Examples.approachB]) "B" Examples.approachB
           [Examples.testCase1; Examples.testCase2] JsMap.empty Examples.start
           tt tt [[Examples.xAsString]; []] eq_refl eq_refl eq_refl).
Defined.

Lemma evaluateAllApproaches_result_order_witness :
  exists results,
    fst (TypeInferenceEvaluator.evaluateAllApproaches unit Examples.clock
           (Examples.registry [Examples.approachA; Examples.approachB])
           [Examples.testCase1] JsMap.empty Examples.start) = Ok results
    /\ JsMap.keys results = ["B"].
Proof.
  assert (Hwf : JsMap.wf (Examples.registry [Examples.approachA; Examples.approachB])).
  { unfold JsMap.wf. simpl. repeat constructor; simpl.
    - intros [H|[]]. discriminate H.
    - intros []. }
  destruct (evaluateAllApproaches_result_order Examples.clock
              (Examples.registry [Examples.approachA; Examples.approachB])
              [Examples.testCase1] JsMap.empty Examples.start Hwf)
    as (results & Hrun & Hkeys & _).
  exists results. split; [exact Hrun | exact Hkeys].
Defined.

(** ** More on compareResults *)

Section CompareFacts.
Import TypeInferenceEvaluator Spec.

Lemma Qc_ltb_ge (x y : Qc) : Qc_ltb x y = false <-> (y <= x)%Qc.
Proof.
  split.
  - intros H. apply Qcnot_lt_le. intros Hlt. apply Qc_ltb_lt in Hlt. congruence.
  - intros H. destruct (Qc_ltb x y) eqn:E; auto.
    apply Qc_ltb_lt in E. now apply Qcle_not_lt in H.
Qed.

Lemma compareStep_fst (b : BestAccuracy.t) (f : FastestExecution.t) (r : Row.t) :
  fst (compareStep (b, f) r)
  = if Qc_ltb (BestAccuracy.score b) (Row.accuracy r) then bestOf r else b.
Proof. reflexivity. Qed.

Lemma compareStep_snd (b : BestAccuracy.t) (f : FastestExecution.t) (r : Row.t) :
  snd (compareStep (b, f) r)
  = if before (Row.executionTime r) (FastestExecution.time f)
    then fastestOf r else f.
Proof. reflexivity. Qed.

(** The loop keeps the first row whose accuracy exceeds all before it and
    the start, and is not exceeded after it. *)
Lemma best_fold (rows : list Row.t) (b0 : BestAccuracy.t) (f0 : FastestExecution.t) :
  let b := fst (fold_left compareStep rows (b0, f0)) in
  (b = b0
   /\ Forall (fun r => (Row.accuracy r <= BestAccuracy.score b0)%Qc) rows)
  \/ (exists pre r post,
        rows = pre ++ r :: post
        /\ b = bestOf r
        /\ Forall (fun r' => (Row.accuracy r' < Row.accuracy r)%Qc) pre
        /\ Forall (fun r' => (Row.accuracy r' <= Row.accuracy r)%Qc) post
        /\ (BestAccuracy.score b0 < Row.accuracy r)%Qc).
Proof.
  revert b0 f0. induction rows as [|r rows IH]; intros b0 f0; cbv zeta;
    cbn [fold_left].
  - left. split; auto.
  - rewrite (surjective_pairing (compareStep (b0, f0) r)).
    rewrite compareStep_fst.
    destruct (Qc_ltb (BestAccuracy.score b0) (Row.accuracy r)) eqn:E.
    + apply Qc_ltb_lt in E.
      destruct (IH (bestOf r) (snd (compareStep (b0, f0) r)))
        as [[Hb Hall]|(pre & r' & post & Hrows & Hb & Hpre & Hpost & Hlt)].
      * right. exists [], r, rows.
        split; [reflexivity|]. split; [exact Hb|]. split; [constructor|].
        split; [exact Hall | exact E].
      * right. exists (r :: pre), r', post.
        split; [simpl; now rewrite Hrows|]. split; [exact Hb|].
        split; [constructor; auto|]. split; [exact Hpost|].
        eapply Qclt_trans; eauto.
    + apply Qc_ltb_ge in E.
      destruct (IH b0 (snd (compareStep (b0, f0) r)))
        as [[Hb Hall]|(pre & r' & post & Hrows & Hb & Hpre & Hpost & Hlt)].
      * left. split; [exact Hb|]. constructor; auto.
      * right. exists (r :: pre), r', post.
        split; [simpl; now rewrite Hrows|]. split; [exact Hb|].
        split; [|split; [exact Hpost | exact Hlt]].
        constructor; auto. eapply Qcle_lt_trans; eauto.
Qed.

Lemma fastest_fold (rows : list Row.t) (b0 : BestAccuracy.t) (f0 : FastestExecution.t) :
  let f := snd (fold_left compareStep rows (b0, f0)) in
  (f = f0
   /\ Forall (fun r => notAfter (FastestExecution.time f0)
                         (Finite (Row.executionTime r))) rows)
  \/ (exists pre r post,
        rows = pre ++ r :: post
        /\ f = fastestOf r
        /\ Forall (fun r' => (Row.executionTime r < Row.executionTime r')%Qc) pre
        /\ Forall (fun r' => (Row.executionTime r <= Row.executionTime r')%Qc) post
        /\ before (Row.executionTime r) (FastestExecution.time f0) = true).
Proof.
  revert b0 f0. induction rows as [|r rows IH]; intros b0 f0; cbv zeta;
    cbn [fold_left].
  - left. split; auto.
  - rewrite (surjective_pairing (compareStep (b0, f0) r)).
    rewrite compareStep_snd.
    destruct (before (Row.executionTime r) (FastestExecution.time f0)) eqn:E.
    + destruct (IH (fst (compareStep (b0, f0) r)) (fastestOf r))
        as [[Hf Hall]|(pre & r' & post & Hrows & Hf & Hpre & Hpost & Hlt)].
      * right. exists [], r, rows.
        split; [reflexivity|]. split; [exact Hf|]. split; [constructor|].
        split; [exact Hall | exact E].
      * right. exists (r :: pre), r', post. simpl in Hlt.
        apply Qc_ltb_lt in Hlt.
        split; [simpl; now rewrite Hrows|]. split; [exact Hf|].
        split; [constructor; auto|]. split; [exact Hpost|].
        destruct (FastestExecution.time f0) as [ms|]; simpl in *; auto.
        apply Qc_ltb_lt. apply Qc_ltb_lt in E. eapply Qclt_trans; eauto.
    + destruct (FastestExecution.time f0) as [ms|] eqn:Et; simpl in E;
        [|discriminate].
      apply Qc_ltb_ge in E.
      destruct (IH (fst (compareStep (b0, f0) r)) f0)
        as [[Hf Hall]|(pre & r' & post & Hrows & Hf & Hpre & Hpost & Hlt)].
      * left. split; [exact Hf|]. rewrite Et in Hall. constructor; auto.
      * right. exists (r :: pre), r', post. rewrite Et in Hlt.
        split; [simpl; now rewrite Hrows|]. split; [exact Hf|].
        split; [|split; [exact Hpost | exact Hlt]].
        constructor; auto.
        simpl in Hlt. apply Qc_ltb_lt in Hlt.
        eapply Qclt_le_trans; eauto.
Qed.

(** X16.  [bestAccuracy] is the first approach, in the order of the mapping, whose
    accuracy is the highest, provided that accuracy exceeds [-1]; when no
    accuracy exceeds [-1] the summary keeps no approach and the score [-1]. *)
Theorem compareResults_bestAccuracy (results : JsMap.t EvaluationResult.t) :
  let rows := map toRow (JsMap.entries results) in
  let best := Summary.bestAccuracy (Comparison.summary (compareResults results)) in
  (best = {| BestAccuracy.approach := ""; BestAccuracy.score := (- (1))%Qc |}
   /\ Forall (fun r => (Row.accuracy r <= - (1))%Qc) rows)
  \/ (exists pre r post,
        rows = pre ++ r :: post
        /\ best = bestOf r
        /\ Forall (fun r' => (Row.accuracy r' < Row.accuracy r)%Qc) pre
        /\ Forall (fun r' => (Row.accuracy r' <= Row.accuracy r)%Qc) post
        /\ (- (1) < Row.accuracy r)%Qc).
Proof.
  intros rows best. unfold best, compareResults. cbn [Comparison.summary Summary.bestAccuracy].
  fold rows.
  destruct (best_fold rows
              {| BestAccuracy.approach := ""; BestAccuracy.score := (- (1))%Qc |}
              {| FastestExecution.approach := "";
                 FastestExecution.time := PositiveInfinity |})
    as [[Hb Hall]|(pre & r & post & H1 & H2 & H3 & H4 & H5)].
  - left. split; auto.
  - right. exists pre, r, post. auto.
Qed.

(** X17.  [fastestExecution] is the first approach, in the order of the mapping,
    whose execution time is the lowest; only an empty mapping leaves the
    summary without an approach and with the time positive infinity. *)
Theorem compareResults_fastestExecution (results : JsMap.t EvaluationResult.t) :
  let rows := map toRow (JsMap.entries results) in
  let fastest :=
    Summary.fastestExecution (Comparison.summary (compareResults results)) in
  (results = JsMap.empty
   /\ fastest = {| FastestExecution.approach := "";
                   FastestExecution.time := PositiveInfinity |})
  \/ (exists pre r post,
        rows = pre ++ r :: post
        /\ fastest = fastestOf r
        /\ Forall (fun r' => (Row.executionTime r < Row.executionTime r')%Qc) pre
        /\ Forall (fun r' => (Row.executionTime r <= Row.executionTime r')%Qc) post).
Proof.
  intros rows fastest. unfold fastest, compareResults.
  cbn [Comparison.summary Summary.fastestExecution]. fold rows.
  destruct (fastest_fold rows
              {| BestAccuracy.approach := ""; BestAccuracy.score := (- (1))%Qc |}
              {| FastestExecution.approach := "";
                 FastestExecution.time := PositiveInfinity |})
    as [[Hf Hall]|(pre & r & post & H1 & H2 & H3 & H4 & _)].
  - left. split; auto.
    unfold rows, JsMap.entries in Hall. destruct results as [|e results]; auto.
    simpl in Hall. inversion Hall as [|? ? Hfalse _]; subst. destruct Hfalse.
  - right. exists pre, r, post. auto.
Qed.

Lemma insertRow_Permutation (a : Row.t) (l : list Row.t) :
  Permutation (a :: l) (insertRow a l).
Proof.
  induction l as [|b l IH]; simpl; auto.
  destruct (Qc_ltb 0%Qc (Row.accuracy b - Row.accuracy a)%Qc); auto.
  rewrite perm_swap. now constructor.
Qed.

Lemma comparator_positive (a b : Row.t) :
  Qc_ltb 0%Qc (Row.accuracy b - Row.accuracy a)%Qc = true
  <-> (Row.accuracy a < Row.accuracy b)%Qc.
Proof.
  rewrite Qc_ltb_lt. symmetry. apply Qclt_minus_iff.
Qed.

Lemma insertRow_HdRel (a b : Row.t) (l : list Row.t) :
  descending b a -> HdRel descending b l -> HdRel descending b (insertRow a l).
Proof.
  intros Hba Hl. destruct l as [|c l]; simpl; [now constructor|].
  inversion Hl; subst.
  destruct (Qc_ltb 0%Qc (Row.accuracy c - Row.accuracy a)%Qc); now constructor.
Qed.

Lemma insertRow_Sorted (a : Row.t) (l : list Row.t) :
  Sorted descending l -> Sorted descending (insertRow a l).
Proof.
  induction l as [|b l IH]; simpl; intros Hs.
  - repeat constructor.
  - inversion Hs as [|? ? Hl Hhd]; subst.
    destruct (Qc_ltb 0%Qc (Row.accuracy b - Row.accuracy a)%Qc) eqn:E.
    + apply comparator_positive in E. constructor; auto.
      apply insertRow_HdRel; auto. unfold descending. now apply Qclt_le_weak.
    + constructor; auto. constructor. unfold descending.
      apply Qcnot_lt_le. intros Hlt. apply comparator_positive in Hlt. congruence.
Qed.

Lemma insertRow_ofAccuracy (x : Qc) (a : Row.t) (l : list Row.t) :
  ofAccuracy x (insertRow a l) = ofAccuracy x (a :: l).
Proof.
  induction l as [|b l IH]; simpl; auto.
  destruct (Qc_ltb 0%Qc (Row.accuracy b - Row.accuracy a)%Qc) eqn:E; auto.
  apply comparator_positive in E.
  unfold ofAccuracy in *. simpl in *. rewrite IH.
  unfold Qc_eq_bool.
  destruct (Qc_eq_dec (Row.accuracy a) x) as [Ea|Ea];
    destruct (Qc_eq_dec (Row.accuracy b) x) as [Eb|Eb]; auto.
  exfalso. rewrite Ea, Eb in E. now apply Qclt_not_eq in E.
Qed.

Lemma descending_Transitive : RelationClasses.Transitive descending.
Proof. intros a b c Hab Hbc. unfold descending in *. eapply Qcle_trans; eauto. Qed.

(** X18.  [detailedComparison] holds one row per approach of the mapping, sorted
    by descending accuracy; approaches of equal accuracy stay in the order of
    the mapping. *)
Theorem compareResults_detailedComparison (results : JsMap.t EvaluationResult.t) :
  let rows := map toRow (JsMap.entries results) in
  let detailed := Comparison.detailedComparison (compareResults results) in
  Permutation rows detailed
  /\ map Row.approach rows = JsMap.keys results
  /\ StronglySorted descending detailed
  /\ forall x, ofAccuracy x detailed = ofAccuracy x rows.
Proof.
  intros rows detailed. unfold detailed, compareResults.
  cbn [Comparison.detailedComparison]. fold rows. unfold sortRows.
  split; [|split; [|split]].
  - induction rows as [|a l IH]; simpl; auto.
    etransitivity; [apply perm_skip; exact IH | apply insertRow_Permutation].
  - unfold rows, JsMap.entries, JsMap.keys. rewrite map_map.
    apply map_ext. intros [k v]. reflexivity.
  - apply Sorted_StronglySorted; [apply descending_Transitive|].
    induction rows as [|a l IH]; simpl; [constructor|].
    now apply insertRow_Sorted.
  - intros x. induction rows as [|a l IH]; simpl; auto.
    rewrite insertRow_ofAccuracy. unfold ofAccuracy in *. simpl. now rewrite IH.
Qed.

End CompareFacts.

(** ** More on the scope stack and the visitor *)

Section ScopeBrackets.
Import RandomTypeInferenceApproach Spec.

Lemma exit_after_enter (scope : string) (stack : list string) :
  stack <> [] -> exitScopeOf (enterScopeOf scope stack) = stack.
Proof.
  intros Hne. unfold exitScopeOf, enterScopeOf.
  rewrite length_app. simpl.
  destruct stack as [|x stack]; [contradiction|]. simpl length.
  replace (1 <? S (length stack) + 1)%nat with true
    by (symmetry; apply Nat.ltb_lt; lia).
  apply removelast_last.
Qed.

Lemma runOps_app (ops1 ops2 : list ScopeOp) (stack : list string) :
  runOps (ops1 ++ ops2) stack = runOps ops2 (runOps ops1 stack).
Proof. apply fold_left_app. Qed.

(** X19.  Entering a scope and leaving it again gives back the stack, and so does
    any sequence of operations in which every enter has its exit; in between
    the current scope is the scope entered. *)
Theorem balanced_restores_stack (ops : list ScopeOp) (stack : list string) :
  balanced ops -> stack <> [] ->
  runOps ops stack = stack
  /\ forall scope,
       exitScopeOf (enterScopeOf scope stack) = stack
       /\ currentScopeOf (enterScopeOf scope stack) = str_or scope "global".
Proof.
  intros Hbal Hne. split.
  - revert stack Hne. induction Hbal as [|scope ops Hbal IH|ops1 ops2 H1 IH1 H2 IH2];
      intros stack Hne.
    + reflexivity.
    + change (EnterScope scope :: ops ++ [ExitScope])
        with ([EnterScope scope] ++ ops ++ [ExitScope]).
      rewrite !runOps_app. simpl.
      rewrite IH by (unfold enterScopeOf; intros H; now apply app_eq_nil in H as [_ H]).
      now apply exit_after_enter.
    + rewrite runOps_app, IH1, IH2; auto.
  - intros scope. split; [now apply exit_after_enter|].
    unfold currentScopeOf, enterScopeOf. rewrite last_last.
    destruct (stack ++ [scope]) eqn:E; auto.
    now apply app_eq_nil in E as [_ E].
Qed.

Lemma balanced_restores_stack_witness :
  runOps [EnterScope "class:A"; EnterScope "class:A.m"; ExitScope; ExitScope]
    ["global"] = ["global"].
Proof.
  apply (balanced_restores_stack
           [EnterScope "class:A"; EnterScope "class:A.m"; ExitScope; ExitScope]
           ["global"]).
  - apply (balanced_wrap "class:A" [EnterScope "class:A.m"; ExitScope]).
    apply (balanced_wrap "class:A.m" []). constructor.
  - discriminate.
Defined.

Section WithGenerator.
Context {Gen : Type} (random : Gen -> Qc * Gen).

(** X20.  A node that opens a scope and closes it at once leaves the scope stack as
    it was, if it has a name; the exit of a node without a name (a class or
    function declaration without [id], a method whose key is not an
    identifier) takes an entry off that its enter never put there, so that
    the enclosing scope is lost unless it is the root. *)
Theorem enter_exit_of_node (ev ex : VisitEvent) (v : RandomTypeVisitor) (g : Gen) :
  exitOf ev = Some ex -> _scopeStack v <> [] ->
  let v' := fst (fst (runCallbacks Gen random [ev; ex] v g)) in
  _scopeStack v'
  = (if unnamed ev then exitScopeOf (_scopeStack v) else _scopeStack v)
  /\ _predictions v' = _predictions v.
Proof.
  intros Hex Hne.
  destruct ev as [path|[id|]| |[id|]| |[key|]| | | |id|]; simpl in Hex;
    try discriminate; injection Hex as <-; simpl;
    rewrite ?exit_after_enter by assumption; auto.
Qed.

End WithGenerator.
End ScopeBrackets.

Lemma enter_exit_of_node_witness :
  RandomTypeInferenceApproach._scopeStack
    (fst (fst (RandomTypeInferenceApproach.runCallbacks nat Examples.alternating
                 [RandomTypeInferenceApproach.ClassMethodEnter None;
                  RandomTypeInferenceApproach.ClassMethodExit]
                 (RandomTypeInferenceApproach._enterScope "class:A"
                    (RandomTypeInferenceApproach.newRandomTypeVisitor ["number"] 1%Qc))
                 0%nat)))
  = ["global"].
Proof.
  apply (enter_exit_of_node Examples.alternating
           (RandomTypeInferenceApproach.ClassMethodEnter None)
           RandomTypeInferenceApproach.ClassMethodExit
           (RandomTypeInferenceApproach._enterScope "class:A"
              (RandomTypeInferenceApproach.newRandomTypeVisitor ["number"] 1%Qc))
           0%nat).
  - reflexivity.
  - discriminate.
Defined.

(** ** More on predict *)

Section PredictionFacts.
Import RandomTypeInferenceApproach Spec.
Context {Gen : Type} (random : Gen -> Qc * Gen).
Context (traverse : string -> string -> list VisitEvent * bool).

Lemma pickOne_In {A} (options : list A) (g g' : Gen) (x : A) :
  Prng.pickOne Gen random options g = (Some x, g') -> In x options.
Proof.
  unfold Prng.pickOne. destruct (random g) as [u g1].
  intros [= H _]. eapply nth_error_In; eauto.
Qed.

(** What one callback adds to the predictions. *)
Lemma handle_predictions (ev : VisitEvent) (v v' : RandomTypeVisitor) (g g' : Gen) :
  handle Gen random ev v g = (Ok v', g') ->
  _availableTypes v' = _availableTypes v
  /\ _randomTypeProbability v' = _randomTypeProbability v
  /\ exists new,
       _predictions v' = _predictions v ++ new
       /\ (length new <= length (candidates [ev]))%nat
       /\ Forall
            (fun p =>
               In (TypePrediction.predictedType p) (_availableTypes v)
               /\ exists path, In path (candidates [ev]) /\ madeOf path p)
            new.
Proof.
  assert (Hsame : forall v0 : RandomTypeVisitor, exists new,
             _predictions v0 = _predictions v0 ++ new
             /\ (length new <= length (candidates [ev]))%nat
             /\ Forall
                  (fun p =>
                     In (TypePrediction.predictedType p) (_availableTypes v)
                     /\ exists path, In path (candidates [ev]) /\ madeOf path p)
                  new).
  { intros v0. exists []. rewrite app_nil_r. simpl. repeat split; auto. lia. }
  destruct ev as [path|[id|]| |[id|]| |[key|]| | | |id|]; simpl handle;
    try (intros [= <- _]; repeat split; auto; apply (Hsame v)).
  unfold onIdentifier. destruct (skipped path) eqn:Eskip;
    [intros [= <- _]; repeat split; auto; apply (Hsame v)|].
  destruct (_shouldMakePrediction Gen random v g) as [[|] g1];
    [|intros [= <- _]; repeat split; auto; apply (Hsame v)].
  destruct (_getRandomType Gen random v g1) as [[type|] g2] eqn:Epick;
    [|discriminate].
  intros [= <- _]. simpl. repeat split; auto.
  eexists. split; [reflexivity|]. simpl. rewrite Eskip. simpl.
  split; [lia|]. constructor; [|constructor]. simpl. split.
  - eapply pickOne_In. exact Epick.
  - exists path. split; [now left|]. repeat split.
Qed.

Lemma candidates_cons (ev : VisitEvent) (events : list VisitEvent) :
  candidates (ev :: events) = candidates [ev] ++ candidates events.
Proof. unfold candidates. simpl. now rewrite app_nil_r. Qed.

Lemma runCallbacks_predictions (events : list VisitEvent)
    (v : RandomTypeVisitor) (g : Gen) :
  let v' := fst (fst (runCallbacks Gen random events v g)) in
  exists new,
    _predictions v' = _predictions v ++ new
    /\ (length new <= length (candidates events))%nat
    /\ Forall
         (fun p =>
            In (TypePrediction.predictedType p) (_availableTypes v)
            /\ exists path, In path (candidates events) /\ madeOf path p)
         new.
Proof.
  revert v g. induction events as [|ev events IH]; intros v g; cbv zeta.
  - exists []. simpl. rewrite app_nil_r. repeat split; auto.
  - cbn [runCallbacks].
    destruct (handle Gen random ev v g) as [[v1|e] g1] eqn:E.
    + destruct (handle_predictions ev v v1 g g1 E)
        as (Ht & _ & new1 & Hp1 & Hl1 & Hf1).
      destruct (IH v1 g1) as (new2 & Hp2 & Hl2 & Hf2).
      exists (new1 ++ new2). rewrite candidates_cons.
      split; [rewrite Hp2, Hp1, app_assoc; reflexivity|].
      split; [rewrite !length_app; lia|].
      apply Forall_app. split.
      * eapply Forall_impl; [|exact Hf1].
        intros p (Hin & path & Hpath & Hmade). split; auto.
        exists path. split; auto. apply in_app_iff. now left.
      * eapply Forall_impl; [|exact Hf2].
        intros p (Hin & path & Hpath & Hmade). rewrite Ht in Hin. split; auto.
        exists path. split; auto. apply in_app_iff. now right.
    + exists []. simpl. rewrite app_nil_r. repeat split; auto. lia.
Qed.

(** What the [Identifier] callback skips, said without the callback. *)
Lemma skipped_declarativeName (path : IdentifierPath) :
  skipped path = true <-> declarativeName (parent path).
Proof.
  unfold skipped. destruct (parent path) as [[|]|type [|]|[|]|[|]|[|]| | | | | |];
    split; intros H; try constructor; try discriminate; inversion H.
Qed.

Lemma subsequence_none {A} (l : list A) : subsequence [] l.
Proof. induction l; constructor; auto. Qed.

Lemma subsequence_app {A} (l1 l2 l1' l2' : list A) :
  subsequence l1 l2 -> subsequence l1' l2' -> subsequence (l1 ++ l1') (l2 ++ l2').
Proof.
  intros H1 H2. induction H1; simpl; auto; now constructor.
Qed.

Lemma identifiers_cons (ev : VisitEvent) (events : list VisitEvent) :
  identifiers (ev :: events) = identifiers [ev] ++ identifiers events.
Proof. unfold identifiers. simpl. now rewrite app_nil_r. Qed.

(** What one callback adds to the predictions, and of which occurrence. *)
Lemma handle_chosen (ev : VisitEvent) (v v' : RandomTypeVisitor) (g g' : Gen) :
  handle Gen random ev v g = (Ok v', g') ->
  exists chosen new,
    _predictions v' = _predictions v ++ new
    /\ subsequence chosen (identifiers [ev])
    /\ Forall (fun path => ~ declarativeName (parent path)) chosen
    /\ Forall2 madeOf chosen new
    /\ Forall (fun p => In (TypePrediction.predictedType p) (_availableTypes v)) new.
Proof.
  assert (Hnone : forall v0 : RandomTypeVisitor, exists chosen new,
             _predictions v0 = _predictions v0 ++ new
             /\ subsequence chosen (identifiers [ev])
             /\ Forall (fun path => ~ declarativeName (parent path)) chosen
             /\ Forall2 madeOf chosen new
             /\ Forall
                  (fun p => In (TypePrediction.predictedType p) (_availableTypes v))
                  new).
  { intros v0. exists [], []. rewrite app_nil_r.
    split; [reflexivity|]. split; [apply subsequence_none|]. auto. }
  destruct ev as [path|[id|]| |[id|]| |[key|]| | | |id|]; simpl handle;
    try (intros [= <- _]; apply (Hnone v)).
  unfold onIdentifier. destruct (skipped path) eqn:Eskip;
    [intros [= <- _]; apply (Hnone v)|].
  destruct (_shouldMakePrediction Gen random v g) as [[|] g1];
    [|intros [= <- _]; apply (Hnone v)].
  destruct (_getRandomType Gen random v g1) as [[type|] g2] eqn:Epick;
    [|discriminate].
  intros [= <- _]. simpl. exists [path]. eexists.
  split; [reflexivity|]. split; [repeat constructor|]. split.
  - constructor; [|constructor]. intros Hdecl.
    apply skipped_declarativeName in Hdecl. congruence.
  - split.
    + constructor; [|constructor]. repeat split.
    + constructor; [|constructor]. simpl. eapply pickOne_In. exact Epick.
Qed.

Lemma runCallbacks_chosen (events : list VisitEvent)
    (v : RandomTypeVisitor) (g : Gen) :
  let v' := fst (fst (runCallbacks Gen random events v g)) in
  exists chosen new,
    _predictions v' = _predictions v ++ new
    /\ subsequence chosen (identifiers events)
    /\ Forall (fun path => ~ declarativeName (parent path)) chosen
    /\ Forall2 madeOf chosen new
    /\ Forall (fun p => In (TypePrediction.predictedType p) (_availableTypes v)) new.
Proof.
  revert v g. induction events as [|ev events IH]; intros v g; cbv zeta.
  - exists [], []. simpl. rewrite app_nil_r.
    split; [reflexivity|]. split; [constructor|]. auto.
  - cbn [runCallbacks]. rewrite identifiers_cons.
    destruct (handle Gen random ev v g) as [[v1|e] g1] eqn:E.
    + destruct (handle_chosen ev v v1 g g1 E)
        as (chosen1 & new1 & Hp1 & Hs1 & Hd1 & Hm1 & Ht1).
      destruct (handle_predictions ev v v1 g g1 E) as (Htypes & _).
      destruct (IH v1 g1) as (chosen2 & new2 & Hp2 & Hs2 & Hd2 & Hm2 & Ht2).
      exists (chosen1 ++ chosen2), (new1 ++ new2).
      split; [rewrite Hp2, Hp1, app_assoc; reflexivity|].
      split; [now apply subsequence_app|].
      split; [apply Forall_app; auto|].
      split; [now apply Forall2_app|].
      apply Forall_app. split; auto. now rewrite <- Htypes.
    + exists [], []. simpl. rewrite app_nil_r.
      split; [reflexivity|]. split; [apply subsequence_none|]. auto.
Qed.

(** X21.  [predict] never makes a prediction for an identifier that is only a
    name: the property of a member access, the key of a property or of a
    class method, the name of a declared function or class; these are
    exactly the occurrences the [Identifier] callback skips.  For the other
    occurrences it makes at most one prediction each: the predictions are, in
    order, made of a subsequence of the identifier occurrences of the
    traversal, each with the name, position, context and hints of its
    occurrence and a type among the available types. *)
Theorem predict_predictions (a : t) (sourceCode : string)
    (filePath : option string) (g : Gen) :
  let file :=
    match filePath with
    | Some f => str_or f "unknown.js"
    | None => "unknown.js"
    end in
  let events := fst (traverse sourceCode file) in
  let predictions := fst (fst (predict Gen random traverse a sourceCode filePath g)) in
  (forall path, skipped path = true <-> declarativeName (parent path))
  /\ exists chosen,
       subsequence chosen (identifiers events)
       /\ Forall (fun path => ~ declarativeName (parent path)) chosen
       /\ Forall2 madeOf chosen predictions
       /\ Forall
            (fun p => In (TypePrediction.predictedType p) (availableTypes a))
            predictions.
Proof.
  cbv zeta. split; [apply skipped_declarativeName|]. unfold predict.
  destruct (traverse sourceCode _) as [events walkThrows]. cbn [fst].
  pose proof (runCallbacks_chosen events
                (newRandomTypeVisitor (availableTypes a) (randomTypeProbability a))
                g) as H.
  cbv zeta in H.
  destruct (runCallbacks Gen random events _ g) as [[v' threw] g'].
  cbn [fst snd] in *.
  destruct H as (chosen & new & Hp & Hs & Hd & Hm & Ht). simpl in Hp.
  unfold getPredictions. rewrite Hp. exists chosen. auto.
Qed.

(** Every draw lies in the unit interval [0,1). *)
Hypothesis random_unit :
  forall g, (0 <= fst (random g))%Qc /\ (fst (random g) < 1)%Qc.

Lemma pickOne_nonempty {A} (options : list A) (g : Gen) :
  options <> [] ->
  exists x, Prng.pickOne Gen random options g = (Some x, snd (random g)).
Proof.
  intros Hne. unfold Prng.pickOne. destruct (random_unit g) as [Hlo Hhi].
  destruct (random g) as [u g']. cbn [fst snd] in *.
  assert (Hn : (0 < length options)%nat)
    by (destruct options; [contradiction | simpl; lia]).
  set (n := length options) in *.
  assert (Hidx : (Z.to_nat (Qfloor (u * num_of_nat n)%Qc) < n)%nat).
  { assert (Hlt : (u * num_of_nat n < num_of_nat n)%Qc).
    { rewrite <- (Qcmult_1_l (num_of_nat n)) at 2.
      apply Qcmult_lt_compat_r; auto.
      destruct n; [lia|].
      destruct (Qcle_lt_or_eq 0%Qc (num_of_nat (S n))) as [H|H]; auto.
      - rewrite <- num_of_nat_0. apply num_of_nat_le. lia.
      - symmetry in H. now apply num_of_nat_S_neq_0 in H. }
    assert (Hfl : (Qfloor (u * num_of_nat n)%Qc < Z.of_nat n)%Z).
    { rewrite Zlt_Qlt. eapply Qle_lt_trans; [apply Qfloor_le|].
      unfold Qclt in Hlt. unfold num_of_nat in Hlt at 2.
      cbn [this Q2Qc] in Hlt. rewrite Qred_correct in Hlt. exact Hlt. }
    lia. }
  apply nth_error_Some in Hidx.
  destruct (nth_error options _) as [x|]; [|contradiction].
  now exists x.
Qed.

Lemma handle_every_candidate (ev : VisitEvent) (v : RandomTypeVisitor) (g : Gen) :
  _randomTypeProbability v = 1%Qc -> _availableTypes v <> [] ->
  exists v1 g1 new1,
    handle Gen random ev v g = (Ok v1, g1)
    /\ _predictions v1 = _predictions v ++ new1
    /\ Forall2 madeOf (candidates [ev]) new1.
Proof.
  intros Hp Ht.
  destruct ev as [path|[id|]| |[id|]| |[key|]| | | |id|]; simpl handle;
    try (eexists; eexists; exists []; split; [reflexivity|];
         simpl; rewrite app_nil_r; split; auto).
  unfold onIdentifier, candidates. simpl.
  destruct (skipped path) eqn:Eskip.
  - eexists; eexists; exists []. split; [reflexivity|].
    rewrite app_nil_r. split; auto.
  - unfold _shouldMakePrediction, _getRandomType.
    rewrite Hp, (nextBoolean_always random random_unit).
    destruct (pickOne_nonempty (_availableTypes v) (snd (random g)) Ht)
      as (type & ->).
    eexists; eexists; eexists. split; [reflexivity|]. simpl.
    split; [reflexivity|]. constructor; [|constructor]. repeat split.
Qed.

Lemma runCallbacks_every_candidate (events : list VisitEvent)
    (v : RandomTypeVisitor) (g : Gen) :
  _randomTypeProbability v = 1%Qc -> _availableTypes v <> [] ->
  let run := runCallbacks Gen random events v g in
  snd (fst run) = false
  /\ exists new,
       _predictions (fst (fst run)) = _predictions v ++ new
       /\ Forall2 madeOf (candidates events) new.
Proof.
  revert v g. induction events as [|ev events IH]; intros v g Hp Ht; cbv zeta.
  - simpl. split; auto. exists []. rewrite app_nil_r. split; auto.
  - cbn [runCallbacks]. rewrite candidates_cons.
    destruct (handle_every_candidate ev v g Hp Ht)
      as (v1 & g1 & new1 & Hh & Hp1 & Hf1).
    rewrite Hh.
    destruct (handle_configuration random ev v v1 g g1 Hh) as [Hp' Ht'].
    destruct (IH v1 g1) as (Hno & new2 & Hp2 & Hf2);
      [congruence | congruence |].
    split; [exact Hno|].
    exists (new1 ++ new2). split.
    + rewrite Hp2, Hp1, app_assoc. reflexivity.
    + now apply Forall2_app.
Qed.

Lemma runCallbacks_no_candidate (events : list VisitEvent)
    (v : RandomTypeVisitor) (g : Gen) :
  _randomTypeProbability v = 0%Qc ->
  let run := runCallbacks Gen random events v g in
  snd (fst run) = false /\ _predictions (fst (fst run)) = _predictions v.
Proof.
  revert v g. induction events as [|ev events IH]; intros v g Hp; cbv zeta.
  - simpl. auto.
  - cbn [runCallbacks].
    assert (Hstep : exists v1 g1,
               handle Gen random ev v g = (Ok v1, g1)
               /\ _predictions v1 = _predictions v).
    { destruct ev as [path|[id|]| |[id|]| |[key|]| | | |id|]; simpl handle;
        try (eexists; eexists; split; reflexivity).
      unfold onIdentifier. destruct (skipped path);
        [eexists; eexists; split; reflexivity|].
      unfold _shouldMakePrediction.
      rewrite Hp, (nextBoolean_never random random_unit).
      eexists; eexists; split; reflexivity. }
    destruct Hstep as (v1 & g1 & Hh & Hp1). rewrite Hh.
    destruct (handle_configuration random ev v v1 g g1 Hh) as [Hp' _].
    destruct (IH v1 g1) as (Hno & Hp2); [congruence|].
    split; [exact Hno | congruence].
Qed.

(** X22.  The two ends of the baseline.  With [randomTypeProbability = 0]
    [predict] returns no prediction at all.  With [randomTypeProbability = 1]
    and at least one available type it returns exactly one prediction for
    every identifier occurrence it does not skip, in the order of the
    traversal, and no callback fails. *)
Theorem predict_all_or_nothing (a : t) (sourceCode : string)
    (filePath : option string) (g : Gen) :
  let file :=
    match filePath with
    | Some f => str_or f "unknown.js"
    | None => "unknown.js"
    end in
  let occurrences := candidates (fst (traverse sourceCode file)) in
  let run := predict Gen random traverse a sourceCode filePath g in
  (randomTypeProbability a = 0%Qc -> fst (fst run) = [])
  /\ (randomTypeProbability a = 1%Qc -> availableTypes a <> [] ->
      Forall2 madeOf occurrences (fst (fst run))
      /\ snd (fst run) = snd (traverse sourceCode file)).
Proof.
  cbv zeta. unfold predict.
  destruct (traverse sourceCode _) as [events walkThrows]. cbn [fst snd].
  split.
  - intros Hp.
    pose proof (runCallbacks_no_candidate events
                  (newRandomTypeVisitor (availableTypes a) (randomTypeProbability a))
                  g Hp) as H.
    cbv zeta in H.
    destruct (runCallbacks Gen random events _ g) as [[v' threw] g'].
    cbn [fst snd] in *. unfold getPredictions. tauto.
  - intros Hp Ht.
    pose proof (runCallbacks_every_candidate events
                  (newRandomTypeVisitor (availableTypes a) (randomTypeProbability a))
                  g Hp Ht) as H.
    cbv zeta in H.
    destruct (runCallbacks Gen random events _ g) as [[v' threw] g'].
    cbn [fst snd] in *. destruct H as (-> & new & Hnew & Hf).
    unfold getPredictions. simpl in Hnew. rewrite Hnew. auto.
Qed.

End PredictionFacts.

Lemma predict_all_or_nothing_witness :
  Forall2 Spec.madeOf (Spec.candidates Examples.countDeclaration)
    (fst (fst (RandomTypeInferenceApproach.predict nat Examples.alternating
                 Examples.walk Examples.onlyNumber "const count = 1;" None 0%nat)))
  /\ fst (fst (RandomTypeInferenceApproach.predict nat Examples.alternating
                 Examples.walk
                 {| RandomTypeInferenceApproach.availableTypes := ["number"];
                    RandomTypeInferenceApproach.randomTypeProbability := 0%Qc |}
                 "const count = 1;" None 0%nat))
     = [].
Proof.
  split.
  - apply (predict_all_or_nothing Examples.alternating Examples.walk
             alternating_unit Examples.onlyNumber "const count = 1;" None 0%nat).
    + reflexivity.
    + discriminate.
  - apply (predict_all_or_nothing Examples.alternating Examples.walk
             alternating_unit
             {| RandomTypeInferenceApproach.availableTypes := ["number"];
                RandomTypeInferenceApproach.randomTypeProbability := 0%Qc |}
             "const count = 1;" None 0%nat).
    reflexivity.
Defined.

(** ** More on the configuration and the hints *)

Section ConfigurationFacts.
Import RandomTypeInferenceApproach Spec.

(** X23.  [initialize] reads two keys and nothing else: a configuration without
    them leaves the approach as it is, any other key makes no difference, and
    initializing twice with one configuration is initializing once. *)
Theorem initialize_recognized_keys (config : Config) (a : t) :
  initialize config (initialize config a) = initialize config a
  /\ initialize JsMap.empty a = a
  /\ (JsMap.get "availableTypes" config = None ->
      JsMap.get "randomTypeProbability" config = None ->
      initialize config a = a)
  /\ (forall key value,
        key <> "availableTypes" -> key <> "randomTypeProbability" ->
        initialize (JsMap.set key value config) a = initialize config a).
Proof.
  split; [|split; [|split]].
  - unfold initialize.
    destruct (JsMap.get "availableTypes" config) as [[n|items|b]|];
      destruct (JsMap.get "randomTypeProbability" config) as [[n'|items'|b']|];
      destruct a; reflexivity.
  - now destruct a.
  - intros H1 H2. unfold initialize. rewrite H1, H2. now destruct a.
  - intros key value H1 H2. unfold initialize.
    now rewrite !JsMap_get_set_other by assumption.
Qed.

Lemma initialize_recognized_keys_witness :
  initialize
    (JsMap.set "seed" (UNumber 1%Qc) [("randomTypeProbability", UNumber 0%Qc)])
    defaults
  = initialize [("randomTypeProbability", UNumber 0%Qc)] defaults
  /\ initialize [("verbose", UOther true)] defaults = defaults.
Proof.
  destruct (initialize_recognized_keys
              [("randomTypeProbability", UNumber 0%Qc)] defaults)
    as (_ & _ & _ & Hother).
  destruct (initialize_recognized_keys [("verbose", UOther true)] defaults)
    as (_ & _ & Hnone & _).
  split.
  - apply Hother; discriminate.
  - apply Hnone; reflexivity.
Defined.

End ConfigurationFacts.

Section HintFacts.
Import RandomTypeInferenceApproach Spec.
Local Open Scope string_scope.

Lemma substring_at (pre part post : string) :
  String.substring (String.length pre) (String.length part) (pre ++ part ++ post)
  = part.
Proof.
  induction pre as [|c pre IH]; simpl.
  - induction part as [|c part IH]; simpl.
    + now destruct post.
    + now rewrite IH.
  - exact IH.
Qed.

Lemma substring_found (m : nat) (s part : string) :
  part <> "" ->
  String.substring m (String.length part) s = part ->
  exists pre post, s = pre ++ part ++ post /\ String.length pre = m.
Proof.
  intros Hne. revert s. induction m as [|m IH]; intros s Hsub.
  - exists "". simpl. revert s Hsub. clear Hne.
    induction part as [|c part IHp]; intros s Hsub.
    + exists s. auto.
    + destruct s as [|c' s]; simpl in Hsub; [discriminate|].
      injection Hsub as -> Hsub.
      destruct (IHp s Hsub) as (post & Hpost & _).
      exists post. simpl. split; auto. now rewrite <- Hpost.
  - destruct s as [|c s]; simpl in Hsub.
    + destruct part; [contradiction | discriminate].
    + destruct (IH s Hsub) as (pre & post & -> & Hlen).
      exists (String c pre), post. simpl. auto.
Qed.

(** [includes] finds a part wherever it occurs. *)
Lemma includes_contains (name part : string) :
  part <> "" -> (includes name part = true <-> contains name part).
Proof.
  intros Hne. unfold includes, contains. split.
  - destruct (String.index 0 part name) as [m|] eqn:E; [|discriminate].
    intros _. apply String.index_correct1 in E.
    destruct (substring_found m name part Hne E) as (pre & post & H & _).
    now exists pre, post.
  - intros (pre & post & ->).
    destruct (String.index 0 part (pre ++ part ++ post)) eqn:E; auto.
    exfalso.
    apply (String.index_correct3 0 (String.length pre) part _ E Hne);
      [lia | apply substring_at].
Qed.

Lemma length_append (s1 s2 : string) :
  String.length (s1 ++ s2) = (String.length s1 + String.length s2)%nat.
Proof. induction s1; simpl; auto. Qed.

Lemma append_empty_r (s : string) : s ++ "" = s.
Proof. induction s; simpl; congruence. Qed.

Lemma endsWith_suffix (name suffix : string) :
  suffix <> "" ->
  (endsWith name suffix = true <-> exists pre, name = pre ++ suffix).
Proof.
  intros Hne. unfold endsWith. rewrite andb_true_iff, Nat.leb_le, String.eqb_eq.
  split.
  - intros [Hle Hsub].
    destruct (substring_found _ name suffix Hne Hsub) as (pre & post & H & Hlen).
    exists pre.
    assert (Hpost : String.length post = 0%nat).
    { rewrite H, !length_append in Hlen. lia. }
    destruct post; [|discriminate].
    now rewrite append_empty_r in H.
  - intros (pre & ->). rewrite length_append. split; [lia|].
    replace (String.length pre + String.length suffix - String.length suffix)%nat
      with (String.length pre) by lia.
    pose proof (substring_at pre suffix "") as H.
    now rewrite append_empty_r in H.
Qed.

Lemma hints_of_flags (b1 b2 b3 b4 : bool) :
  let hints :=
    ((if b1 then ["likely-number"] else [])
     ++ (if b2 then ["likely-string"] else [])
     ++ (if b3 then ["likely-boolean"] else [])
     ++ (if b4 then ["likely-array"] else []))%list in
  (In "likely-number" hints <-> b1 = true)
  /\ (In "likely-string" hints <-> b2 = true)
  /\ (In "likely-boolean" hints <-> b3 = true)
  /\ (In "likely-array" hints <-> b4 = true)
  /\ NoDup hints.
Proof.
  destruct b1, b2, b3, b4; simpl;
    repeat split; try tauto; try discriminate;
    try (intros H; repeat (destruct H as [H|H]; try discriminate H); tauto);
    repeat constructor; simpl;
    intros H; repeat (destruct H as [H|H]; try discriminate H); tauto.
Qed.

(** X24.  The hints of an identifier are decided by what its name contains,
    anywhere in it: one of "count", "length", "size", "index" for
    likely-number; one of "name", "title", "text", "message" for
    likely-string; one of "is", "has", "can", "should" for likely-boolean;
    one of "list", "array", "items", or a final "s", for likely-array.  No
    hint is given twice.  So a name that contains "list" is hinted both as a
    boolean and as an array. *)
Theorem extractSemanticHints_by_name (path : IdentifierPath) :
  let name := nodeName path in
  let hints := _extractSemanticHints path in
  (In "likely-number" hints
   <-> contains name "count" \/ contains name "length"
       \/ contains name "size" \/ contains name "index")
  /\ (In "likely-string" hints
      <-> contains name "name" \/ contains name "title"
          \/ contains name "text" \/ contains name "message")
  /\ (In "likely-boolean" hints
      <-> contains name "is" \/ contains name "has"
          \/ contains name "can" \/ contains name "should")
  /\ (In "likely-array" hints
      <-> contains name "list" \/ contains name "array"
          \/ contains name "items" \/ exists pre, name = pre ++ "s")
  /\ NoDup hints
  /\ (contains name "list" ->
      In "likely-boolean" hints /\ In "likely-array" hints).
Proof.
  intros name. cbv zeta. unfold _extractSemanticHints. fold name.
  set (c1 := includes name "count" || includes name "length"
             || includes name "size" || includes name "index").
  set (c2 := includes name "name" || includes name "title"
             || includes name "text" || includes name "message").
  set (c3 := includes name "is" || includes name "has"
             || includes name "can" || includes name "should").
  set (c4 := includes name "list" || includes name "array"
             || includes name "items" || endsWith name "s").
  destruct (hints_of_flags c1 c2 c3 c4) as (H1 & H2 & H3 & H4 & Hnd).
  cbv zeta in H1, H2, H3, H4, Hnd.
  assert (E1 : c1 = true
               <-> contains name "count" \/ contains name "length"
                   \/ contains name "size" \/ contains name "index").
  { unfold c1. rewrite !orb_true_iff.
    rewrite !includes_contains by discriminate. tauto. }
  assert (E2 : c2 = true
               <-> contains name "name" \/ contains name "title"
                   \/ contains name "text" \/ contains name "message").
  { unfold c2. rewrite !orb_true_iff.
    rewrite !includes_contains by discriminate. tauto. }
  assert (E3 : c3 = true
               <-> contains name "is" \/ contains name "has"
                   \/ contains name "can" \/ contains name "should").
  { unfold c3. rewrite !orb_true_iff.
    rewrite !includes_contains by discriminate. tauto. }
  assert (E4 : c4 = true
               <-> contains name "list" \/ contains name "array"
                   \/ contains name "items" \/ exists pre, name = pre ++ "s").
  { unfold c4. rewrite !orb_true_iff.
    rewrite !includes_contains by discriminate.
    rewrite endsWith_suffix by discriminate. tauto. }
  split; [now rewrite H1|]. split; [now rewrite H2|].
  split; [now rewrite H3|]. split; [now rewrite H4|]. split; [exact Hnd|].
  intros Hlist. split.
  - apply H3, E3. left. destruct Hlist as (pre & post & ->).
    exists (pre ++ "l"), ("t" ++ post).
    clear. induction pre as [|c pre IH]; simpl in *; congruence.
  - apply H4, E4. now left.
Qed.

Lemma extractSemanticHints_by_name_witness :
  In "likely-boolean"
    (_extractSemanticHints
       {| nodeName := "wishlist"; loc := None; parent := VariableDeclarator |})
  /\ In "likely-array"
       (_extractSemanticHints
          {| nodeName := "wishlist"; loc := None; parent := VariableDeclarator |}).
Proof.
  apply (extractSemanticHints_by_name
           {| nodeName := "wishlist"; loc := None; parent := VariableDeclarator |}).
  exists "wish", "". reflexivity.
Defined.

End HintFacts.

(** ** What the evaluator reports *)

Section ReportFacts.
Import TypeInferenceEvaluator Spec.
Context {W : Type} (now : W -> Z).
Implicit Types (a : Approach W) (s : State W) (tcs : list TestCase.t)
  (reg : JsMap.t (Approach W)).

Lemma reported_app (l1 l2 : list ConsoleEvent) :
  reported (l1 ++ l2) = reported l1 ++ reported l2.
Proof. apply flat_map_app. Qed.

Lemma reported_processingLogs tcs : reported (processingLogs tcs) = [].
Proof. induction tcs; simpl; auto. Qed.

(** [evaluateApproach] itself reports no failure. *)
Lemma evaluateApproach_reports_nothing reg approachName tcs (config : Config) s :
  reported (console (snd (evaluateApproach W now reg approachName tcs config s)))
  = reported (console s).
Proof.
  destruct (JsMap.get approachName reg) as [a|] eqn:Hreg.
  - rewrite (evaluateApproach_run now reg approachName a tcs config s Hreg).
    cbv zeta.
    destruct (initialize a config (world s)) as [[u|e] w1]; cbn [snd console].
    + destruct (fst (predictEach a tcs w1)); cbn [snd console];
        rewrite !reported_app, reported_processingLogs; simpl;
        now rewrite ?app_nil_r.
    + rewrite reported_app. simpl. now rewrite app_nil_r.
  - unfold evaluateApproach. now rewrite Hreg.
Qed.

Lemma evaluateEach_reports reg tcs (configs : JsMap.t Config)
    (names : list string) (results : JsMap.t EvaluationResult.t) s :
  reported (console (snd (evaluateEach W now reg tcs configs names results s)))
  = reported (console s) ++ failed (attempts W now reg tcs configs names s).
Proof.
  revert results s. induction names as [|n names IH]; intros results s.
  - simpl. now rewrite app_nil_r.
  - pose proof (evaluateApproach_reports_nothing reg n tcs (configFor configs n) s)
      as Hrep.
    cbn [evaluateEach attempts]. unfold bind at 1. unfold try_catch.
    unfold bind at 1.
    destruct (evaluateApproach W now reg n tcs (configFor configs n) s)
      as [[r|e] s1]; cbn [snd] in Hrep.
    + unfold ret at 1. rewrite IH, Hrep. reflexivity.
    + unfold bind at 1. unfold log at 1. unfold ret at 1.
      rewrite IH. cbn [snd console log].
      rewrite reported_app, Hrep. simpl. now rewrite <- app_assoc.
Qed.

(** X15.  Every failed evaluation is reported with [console.error], once, with the
    name of the approach and the error caught, in the order of the attempts;
    nothing else is reported as a failure. *)
Theorem evaluateAllApproaches_reports_failures
    reg tcs (configs : JsMap.t Config) s :
  reported (console (snd (evaluateAllApproaches W now reg tcs configs s)))
  = reported (console s)
    ++ failed (attempts W now reg tcs configs (JsMap.keys reg) s).
Proof. apply evaluateEach_reports. Qed.

End ReportFacts.

(** Three results: the best is the first of the two most accurate, the
    fastest the last, and the detailed comparison keeps the two equally
    accurate approaches in the order of the mapping. *)
Example compareResults_threeResults :
  let comparison := TypeInferenceEvaluator.compareResults Examples.threeResults in
  TypeInferenceEvaluator.BestAccuracy.approach
    (TypeInferenceEvaluator.Summary.bestAccuracy
       (TypeInferenceEvaluator.Comparison.summary comparison)) = "good"
  /\ TypeInferenceEvaluator.FastestExecution.approach
       (TypeInferenceEvaluator.Summary.fastestExecution
          (TypeInferenceEvaluator.Comparison.summary comparison)) = "fast"
  /\ map TypeInferenceEvaluator.Row.approach
       (TypeInferenceEvaluator.Comparison.detailedComparison comparison)
     = ["good"; "fast"; "slow"]
  /\ TypeInferenceEvaluator.Summary.totalTestCases
       (TypeInferenceEvaluator.Comparison.summary comparison) = 2%nat.
Proof. repeat split. Qed.
